(** * Wishbone shared interconnect (migen/bus/wishbone.py)

    A shallow embedding of the cycle-level behaviour of the [Arbiter],
    [Decoder] and [InterconnectShared] classes of [migen/bus/wishbone.py].

    The Python code builds, once, a list of combinational assignments
    ([comb]) and of clocked assignments ([sync]) over signals.  Here a
    signal's value during one cycle is a [Z]; a port (a [Master] or a
    [Slave] object, whose attributes are the signals declared from [_desc])
    is a finite map from attribute names to the values of this cycle; the
    [comb] list becomes a function from the values read to the values
    driven, and the [sync] list becomes the next value of a register. *)

From Stdlib Require Import ZArith Lia Bool.
From stdpp Require Import base tactics option list strings gmap fin_maps.

Local Open Scope string_scope.
Local Open Scope Z_scope.

(** ** Values of the structure layer *)

(** [BV(width)]: the type of a bit vector. *)
Record BV := mkBV { width : Z }.

(** [Constant(n, bv)]. *)
Record Constant := mkConstant { n : Z; bv : BV }.

(** The value [v[lo:hi]] of a slice: bits [lo] (included) to [hi] (excluded)
    of [v], as an unsigned number. *)
Definition Slice (v lo hi : Z) : Z :=
  Z.land (Z.shiftr v lo) (Z.ones (hi - lo)).

(** [Cat]: concatenation of a list of values, the first one in the
    low-order bits.  Each element comes with its width. *)
Fixpoint Cat (l : list (Z * Z)) : Z :=
  match l with
  | [] => 0
  | (w, v) :: r => Z.lor v (Z.shiftl (Cat r) w)
  end.

(** [Replicate(v, k)] for a value [v] of width [w]: [k] copies of [v]. *)
Definition Replicate (w v : Z) (k : nat) : Z := Cat (repeat (w, v) k).

(** The value of a comparison [a == b]: a single bit. *)
Definition eq_bit (a b : Z) : Z := Z.b2z (a =? b).

(** ** The signal table and the ports *)

Definition _desc : list (bool * string * Z) :=
  [ (true,  "adr", 32);
    (true,  "dat", 32);
    (false, "dat", 32);
    (true,  "sel", 4);
    (true,  "cyc", 1);
    (true,  "stb", 1);
    (false, "ack", 1);
    (true,  "we",  1);
    (true,  "cti", 3);
    (true,  "bte", 2);
    (false, "err", 1) ].

(** Modelled from the spec: [get_sig_name] is defined in
    [migen/bus/simple.py], which is not among the sources.  The suffix rule
    is the one [wishbone.py] relies on when it reads [adr_o], [cyc_o],
    [ack_i], [err_i], [dat_i] on a master and [cyc_i], [ack_o], [err_o],
    [dat_o] on a slave: a signal is an output ([_o]) of the side that drives
    it. *)
Definition get_sig_name (x : bool * string * Z) (slave : bool) : string :=
  x.1.2 +:+ (if xorb x.1.1 slave then "_o" else "_i").

(** A port: the value, this cycle, of each attribute of a [Master] or
    [Slave] object. *)
Abbreviation port := (gmap string Z).

(** [getattr(p, name)].  Every name the code asks for is declared by
    [Simple.__init__] from [_desc], so the lookup never fails on a port
    built by [Master(...)] or [Slave(...)]; an absent signal reads 0. *)
Definition getattr (p : port) (name : string) : Z := default 0 (p !! name).

(** The signals [Simple.__init__(_desc, slave, name)] declares, each at its
    reset value 0. *)
Definition Simple (desc : list (bool * string * Z)) (slave : bool) : port :=
  foldr (fun x p => <[get_sig_name x slave := 0]> p) ∅ desc.

Definition Master : port := Simple _desc false.
Definition Slave : port := Simple _desc true.

(** A signal of width [w] holds a value in [0, 2^w). *)
Definition fits (w v : Z) : Prop := 0 <= v < 2 ^ w.

(** The width [getattr(p, name).bv.width] of a signal declared from
    [_desc]: the width of the first entry of that direction and name. *)
Definition bv_width (m2s : bool) (name : string) : Z :=
  default 0
    ((fun ix : nat * (bool * string * Z) => ix.2.2) <$>
     list_find (fun x : bool * string * Z => x.1.1 = m2s ∧ x.1.2 = name)
               _desc).

(** ** Decoder *)

(** The first component of an entry of [slaves]: a plain [int] or a
    [Constant]. *)
Inductive address :=
  | Int (x : Z)
  | Const (c : Constant).

(** The attributes of a [Decoder] object.  The second component of each
    entry of [slaves] is a reference to a [Slave] port; the values on those
    ports are given cycle by cycle, as a list in the order of [slaves]. *)
Record Decoder := mkDecoder {
  slaves : list address;
  offset : Z;
  register : bool;
  addresses : list Constant
}.

(** [hi = self.master.adr_o.bv.width - self.offset]. *)
Definition hi (d : Decoder) : Z := bv_width true "adr" - offset d.

(** The comparator of one entry:
    [self.master.adr_o[hi-addr.bv.width:hi] == addr]. *)
Definition comparator (hi adr_o : Z) (addr : Constant) : Z :=
  eq_bit (Slice adr_o (hi - width (bv addr)) hi) (n addr).

(** [self._slave_sel]: bit [i] is driven by the comparator of entry [i]. *)
Definition _slave_sel (d : Decoder) (master : port) : Z :=
  foldr Z.lor 0
    (imap (fun i addr =>
             Z.shiftl (comparator (hi d) (getattr master "adr_o") addr)
                      (Z.of_nat i))
          (addresses d)).

(** [self._slave_sel_r]: with [register], the output of the flip-flops,
    whose content during this cycle is [r]; otherwise a copy of
    [_slave_sel]. *)
Definition _slave_sel_r (d : Decoder) (r : Z) (master : port) : Z :=
  if register d then r else _slave_sel d master.

(** The [sync] list: what the flip-flops hold during the next cycle. *)
Definition Decoder_sync (d : Decoder) (r : Z) (master : port) : Z :=
  if register d then _slave_sel d master else r.

(** [m2s_names] of [Decoder.get_fragment]: pairs (name on the master, name
    on a slave) of the master-to-slave signals except [cyc]. *)
Definition Decoder_m2s_names : list (string * string) :=
  (fun x => (get_sig_name x false, get_sig_name x true)) <$>
  filter (fun x : bool * string * Z => x.1.1 = true ∧ x.1.2 ≠ "cyc") _desc.

(** A bit [v[i]] of a signal. *)
Definition bit (v : Z) (i : nat) : Z :=
  Slice v (Z.of_nat i) (Z.of_nat i + 1).

(** What the [comb] list of [Decoder.get_fragment] drives on the slaves:
    the master-to-slave signals copied from the master, and [cyc_i]
    combined with the selection bit. *)
Definition Decoder_slaves (d : Decoder) (master : port) (ss : list port)
    : list port :=
  imap (fun i s =>
          <["cyc_i" := Z.land (getattr master "cyc_o")
                              (bit (_slave_sel d master) i)]>
            (foldl (fun s name => <[name.2 := getattr master name.1]> s)
                   s Decoder_m2s_names))
       ss.

(** [ackv], [errv]: the acknowledges (errors) of all slaves ORed. *)
Definition ackv (ss : list port) : Z :=
  foldl (fun ackv s => Z.lor ackv (getattr s "ack_o")) 0 ss.

Definition errv (ss : list port) : Z :=
  foldl (fun errv s => Z.lor errv (getattr s "err_o")) 0 ss.

(** [datav]: the one-hot multiplexer of the data returned by the slaves. *)
Definition datav (sel_r : Z) (ss : list port) : Z :=
  foldl Z.lor 0
    (imap (fun i s =>
             Z.land (Replicate 1 (bit sel_r i)
                       (Z.to_nat (bv_width false "dat")))
                    (getattr s "dat_o"))
          ss).

(** What the [comb] list of [Decoder.get_fragment] drives on the master. *)
Definition Decoder_master (d : Decoder) (r : Z) (master : port)
    (ss : list port) : port :=
  <["dat_i" := datav (_slave_sel_r d r master) ss]>
    (<["err_i" := errv ss]> (<["ack_i" := ackv ss]> master)).

(** One cycle of the fragment of a decoder whose flip-flops hold [r]: the
    values on the master, on the slaves, and the next content of the
    flip-flops. *)
Definition Decoder_get_fragment (d : Decoder) (r : Z) (master : port)
    (ss : list port) : port * list port * Z :=
  (Decoder_master d r master ss, Decoder_slaves d master ss,
   Decoder_sync d r master).

(** An entry matches an address when its comparator is true. *)
Definition matches (d : Decoder) (adr_o : Z) (addr : Constant) : bool :=
  Slice adr_o (hi d - width (bv addr)) (hi d) =? n addr.

(** ** Construction of a decoder *)

(** The exception raised by [max] on an empty list. *)
Inductive exn := ValueError.

(** [max(l)] of a list of integers. *)
Definition max (l : list Z) : exn + Z :=
  match l with
  | [] => inl ValueError
  | x :: r => inr (foldl Z.max x r)
  end.

Section Construction.
(** [bits_for] is defined in [migen/fhdl/structure.py], which is not
    among the sources; the construction is parametric in it. *)
Variable bits_for : address -> Z.

(** [mkconst] of [Decoder.__init__]. *)
Definition mkconst (maxbits : Z) (x : address) : Constant :=
  match x with
  | Int v => mkConstant v (mkBV maxbits)
  | Const c => c
  end.

(** [Decoder.__init__(master, slaves, offset, register)]; [slaves] is the
    list of the first components of the pairs. *)
Definition Decoder_init (slaves : list address) (offset : Z)
    (register : bool) : exn + Decoder :=
  let addresses := slaves in
  match max (bits_for <$> addresses) with
  | inl e => inl e
  | inr maxbits =>
      inr (mkDecoder slaves offset register (mkconst maxbits <$> addresses))
  end.
End Construction.

(** ** Address decoding *)

(** The address bits from position [hi - width] up to [hi] equal the
    pattern, bit by bit. *)
Definition falls_within (d : Decoder) (adr_o : Z) (addr : Constant) : Prop :=
  forall k, 0 <= k < width (bv addr) ->
    Z.testbit adr_o (hi d - width (bv addr) + k) = Z.testbit (n addr) k.

(** A pattern lies inside the decoded window and is a value of its own
    width. *)
Definition pattern_ok (d : Decoder) (addr : Constant) : Prop :=
  0 <= width (bv addr) <= hi d /\ fits (width (bv addr)) (n addr).

(** At most one bit of a vector is set. *)
Definition at_most_one_bit (v : Z) : Prop :=
  forall i j : nat,
    Z.testbit v (Z.of_nat i) = true -> Z.testbit v (Z.of_nat j) = true ->
    i = j.

(** No address of the bus is matched by two entries of the table. *)
Definition non_overlapping (d : Decoder) : Prop :=
  forall (adr_o : Z) (i j : nat) (a b : Constant),
    fits (bv_width true "adr") adr_o ->
    addresses d !! i = Some a -> addresses d !! j = Some b ->
    matches d adr_o a = true -> matches d adr_o b = true ->
    i = j.

(** The content of the flip-flops of [_slave_sel_r] at cycle [t], for a
    decoder started with content [r0] and whose master port carries
    [tr t] at cycle [t]. *)
Fixpoint Decoder_reg (d : Decoder) (r0 : Z) (tr : nat -> port) (t : nat) : Z :=
  match t with
  | O => r0
  | S t' => Decoder_sync d (Decoder_reg d r0 tr t') (tr t')
  end.

(** [_slave_sel_r] is declared without a reset value: the flip-flops start
    at 0. *)
Definition reset : Z := 0.

(** The obligation of the targets: a target does not assert [ack_o] or
    [err_o] while the [cyc_i] it reads is low. *)
Definition targets_in_order (d : Decoder) (master : port) (ss : list port)
    : Prop :=
  forall j s s',
    ss !! j = Some s -> Decoder_slaves d master ss !! j = Some s' ->
    getattr s' "cyc_i" = 0 ->
    getattr s "ack_o" = 0 /\ getattr s "err_o" = 0.

(** ** Arbiter *)

(** [m2s_names] of [Arbiter.get_fragment]: the master-to-slave signals, as
    named on a master. *)
Definition Arbiter_m2s_names : list string :=
  (fun x => get_sig_name x false) <$>
  filter (fun x : bool * string * Z => x.1.1 = true) _desc.

(** [s2m_names] of [Arbiter.get_fragment]: the slave-to-master signals, as
    named on a master. *)
Definition Arbiter_s2m_names : list string :=
  (fun x => get_sig_name x false) <$>
  filter (fun x : bool * string * Z => x.1.1 = false) _desc.

(** Modelled from the spec: [multimux] is defined in
    [migen/corelogic/multimux.py], which is not among the sources.  Each
    output signal takes the value of the signal at the same position in
    [inputs[sel]].  For a selector that designates no input the spec gives
    no value; the outputs then keep the value they had. *)
Definition multimux (sel : Z) (inputs : list (list Z)) (output : list Z)
    : list Z :=
  if decide (0 <= sel) then default output (inputs !! Z.to_nat sel)
  else output.

(** [mux master->slave signals]: what the [comb] list drives on the
    target. *)
Definition Arbiter_target (grant : Z) (masters : list port) (target : port)
    : port :=
  let m2s_masters := (fun m => getattr m <$> Arbiter_m2s_names) <$> masters in
  let m2s_target := getattr target <$> Arbiter_m2s_names in
  foldr (fun nv t => <[nv.1 := nv.2]> t) target
        (zip Arbiter_m2s_names (multimux grant m2s_masters m2s_target)).

(** [connect slave->master signals]: what the [comb] list drives on the
    masters.  [ack_i] and [err_i] are gated by
    [self.rr.grant == Constant(i, self.rr.grant.bv)]. *)
Definition Arbiter_masters (grant : Z) (masters : list port) (target : port)
    : list port :=
  foldl (fun ms name =>
           let source := getattr target name in
           imap (fun i m =>
                   <[name :=
                       if decide (name = "ack_i" \/ name = "err_i")
                       then Z.land source (eq_bit grant (Z.of_nat i))
                       else source]> m)
                ms)
        masters Arbiter_s2m_names.

(** [connect bus requests to round-robin selector]:
    [self.rr.request.eq(Cat(reqs))] over the list [reqs]. *)
Definition Arbiter_request (masters : list port) : Z :=
  Cat ((fun m => (bv_width true "cyc", getattr m "cyc_o")) <$> masters).

(** ** Round-robin selection *)

(** Modelled from the spec: the round-robin selector [roundrobin.Inst] is
    defined in [migen/corelogic/roundrobin.py], which is not among the
    sources.  Starting immediately after [previous_grant] (wrapping), the
    [n] request bits are scanned in rotating order and the first set bit
    found becomes the new grant; if no bit is set there is no grant. *)
Definition rr_evaluate (n : nat) (request : Z) (previous_grant : nat)
    : option nat :=
  List.find (fun i => Z.testbit request (Z.of_nat i))
            ((fun k => (previous_grant + 1 + k) mod n)%nat <$> seq 0 n).

(** Modelled from the spec: the rotation pointer advances to the grant
    when a grant is made and is unchanged otherwise. *)
Definition rr_advance (previous_grant : nat) (grant : option nat) : nat :=
  default previous_grant grant.

(** The rotation pointer before cycle [t] of an execution in which the
    initiators carry [tr t] at cycle [t]; the request vector of each cycle
    is the one [Arbiter.get_fragment] connects to the selector. *)
Fixpoint rr_pointer (n p0 : nat) (tr : nat -> list port) (t : nat) : nat :=
  match t with
  | O => p0
  | S t' =>
      rr_advance (rr_pointer n p0 tr t')
        (rr_evaluate n (Arbiter_request (tr t')) (rr_pointer n p0 tr t'))
  end.

(** The grant of cycle [t]. *)
Definition rr_grant (n p0 : nat) (tr : nat -> list port) (t : nat)
    : option nat :=
  rr_evaluate n (Arbiter_request (tr t)) (rr_pointer n p0 tr t).

(** ** InterconnectShared *)

(** One cycle of [self._arbiter.get_fragment() +
    self._decoder.get_fragment()] around the shared port [Master("shr")]:
    the arbiter drives the master-to-slave signals of the shared port, the
    decoder drives the slaves and the slave-to-master signals of the shared
    port, the arbiter drives those back to the masters.  [grant] is the
    value of [self.rr.grant] and [r] the content of the flip-flops of
    [_slave_sel_r] during the cycle. *)
Definition shared_m2s (grant : Z) (masters : list port) : port :=
  Arbiter_target grant masters Master.

Definition InterconnectShared_get_fragment (d : Decoder) (grant r : Z)
    (masters ss : list port) : list port * port * list port * Z :=
  let shr := shared_m2s grant masters in
  let '(shr', ss', r') := Decoder_get_fragment d r shr ss in
  (Arbiter_masters grant masters shr', shr', ss', r').

(** What the environment presents during one cycle: the grant, the signals
    driven by the masters and the signals driven by the slaves. *)
Record cycle := mkCycle {
  c_grant : Z;
  c_masters : list port;
  c_slaves : list port
}.

(** The [sync] part of one cycle [c] of the interconnect. *)
Definition Interconnect_sync (d : Decoder) (c : cycle) (r : Z) : Z :=
  (InterconnectShared_get_fragment d (c_grant c) r (c_masters c)
     (c_slaves c)).2.

(** The content of the flip-flops at cycle [t] of an execution [tr]. *)
Fixpoint Interconnect_reg (d : Decoder) (r0 : Z) (tr : nat -> cycle)
    (t : nat) : Z :=
  match t with
  | O => r0
  | S t' => Interconnect_sync d (tr t') (Interconnect_reg d r0 tr t')
  end.

(** The ports of the masters at cycle [t] of an execution [tr]. *)
Definition Interconnect_masters (d : Decoder) (r0 : Z) (tr : nat -> cycle)
    (t : nat) : list port :=
  (InterconnectShared_get_fragment d (c_grant (tr t))
     (Interconnect_reg d r0 tr t) (c_masters (tr t))
     (c_slaves (tr t))).1.1.1.

(** ** Example systems *)

(** Target A answers the addresses whose high bit is 0, target B those
    whose high bit is 1; [offset = 0]. *)
Definition two_targets (register : bool) : Decoder :=
  mkDecoder [Const (mkConstant 0 (mkBV 1)); Const (mkConstant 1 (mkBV 1))]
            0 register
            [mkConstant 0 (mkBV 1); mkConstant 1 (mkBV 1)].

(** A master port that holds [cyc_o] and addresses target A on even cycles
    and target B on odd cycles. *)
Definition alternating (t : nat) : port :=
  <["adr_o" := if Nat.even t then 16 else 2 ^ 31]> (<["cyc_o" := 1]> Master).

(** Two targets of which the first acknowledges and returns [dat_o = 5] and
    the second is silent. *)
Definition first_answers : list port :=
  [ <["dat_o" := 5]> (<["ack_o" := 1]> Slave); Slave ].

(** Three initiators: 0 and 2 request, 1 is idle; each drives its own
    address and write data. *)
Definition three_masters : list port :=
  [ <["dat_o" := 10]> (<["adr_o" := 16]> (<["cyc_o" := 1]> Master));
    <["dat_o" := 11]> (<["adr_o" := 2 ^ 31]> Master);
    <["dat_o" := 12]> (<["adr_o" := 2 ^ 31 + 4]> (<["cyc_o" := 1]> Master)) ].

(** A shared port on which a target acknowledges. *)
Definition acked : port := <["dat_i" := 5]> (<["ack_i" := 1]> Master).

(** An execution of the interconnect around a registered decoder:
    initiator 0 holds the grant and addresses target A all along; target A
    returns [dat_o = 5] during cycle 0 and [dat_o = 7] afterwards. *)
Definition changing_data (t : nat) : cycle :=
  mkCycle 0 three_masters
    (match t with
     | O => first_answers
     | S _ => [ <["dat_o" := 7]> (<["ack_o" := 1]> Slave); Slave ]
     end).

(** The three initiators with all requests held. *)
Definition all_requesting (t : nat) : list port :=
  (fun m => <["cyc_o" := 1]> m) <$> three_masters.

(** The number of binary digits of a non-negative integer, 1 for 0. *)
Definition bit_length (v : Z) : Z := Z.max 1 (Z.log2 v + 1).

(** An instance of [bits_for] for the examples: the width of a [Constant],
    the number of binary digits of an [int]. *)
Definition bits_for_digits (x : address) : Z :=
  match x with
  | Int v => bit_length v
  | Const c => width (bv c)
  end.

(** Two entries that both match the addresses whose high bit is 0. *)
Definition overlapping_table : list address :=
  [Const (mkConstant 0 (mkBV 1)); Const (mkConstant 0 (mkBV 1))].

(** ** Signal names of the connections *)

(** The signals of a slave that [Decoder.get_fragment] drives. *)
Definition slave_inputs : list string :=
  ["adr_i"; "dat_i"; "sel_i"; "cyc_i"; "stb_i"; "we_i"; "cti_i"; "bte_i"].

(** A combinational decoder whose only target answers the addresses whose
    high bit is 1. *)
Definition upper_half_only : Decoder :=
  mkDecoder [Const (mkConstant 1 (mkBV 1))] 0 false [mkConstant 1 (mkBV 1)].

(** The signals of an initiator that [Arbiter.get_fragment] drives. *)
Definition master_inputs : list string := ["dat_i"; "ack_i"; "err_i"].

(** The ports of the slaves at cycle [t] of an execution [tr]. *)
Definition Interconnect_slaves (d : Decoder) (r0 : Z) (tr : nat -> cycle)
    (t : nat) : list port :=
  (InterconnectShared_get_fragment d (c_grant (tr t))
     (Interconnect_reg d r0 tr t) (c_masters (tr t))
     (c_slaves (tr t))).1.2.

(** * The SATA BIST drivers (test/bist.py) *)

Definition KB : Z := 1024.
Definition MB : Z := 1024 * KB.
Definition GB : Z := 1024 * MB.


(** The exceptions the identify driver can raise. *)
Inductive error := OverflowError | UnicodeDecodeError | IndexError.

(** Sequencing of computations that may raise. *)
#[global] Instance error_bind : MBind (sum error) :=
  fun A B f x => match x with inl e => inl e | inr a => f a end.

(** [LiteSATABISTIdentifyDriver.read_fifo]: [self.data] after the loop, as
    a function of the dwords [source_data.read()] returns on the successive
    passes, one pass per non-zero reading of [source_stb]. *)
Definition read_fifo (dwords : list Z) : list Z :=
  foldl (fun data dword =>
           let word_lsb := Z.land dword 65535 in
           let word_msb := Z.land (Z.shiftr dword 16) 65535 in
           (data ++ [word_lsb; word_msb])%list)
        [] dwords.

(** [word.to_bytes(2, byteorder='big')]: the two bytes, high byte first;
    [OverflowError] for a negative or too large integer. *)
Definition to_bytes_2_big (word : Z) : error + Z * Z :=
  if decide (0 <= word < 65536)
  then inr (Z.shiftr word 8, Z.land word 255)
  else inl OverflowError.

(** [bytes.decode("utf-8")] of two bytes, as the list of the code points
    of the resulting string: two ASCII characters, or one character encoded
    on two bytes (lead byte [0xC2]-[0xDF], continuation byte
    [0x80]-[0xBF]); any other pair is rejected. *)
Definition decode_utf_8 (b : Z * Z) : error + list Z :=
  if decide (b.1 < 128 /\ b.2 < 128) then inr [b.1; b.2]
  else if decide (194 <= b.1 <= 223 /\ 128 <= b.2 <= 191)
  then inr [Z.lor (Z.shiftl (Z.land b.1 31) 6) (Z.land b.2 63)]
  else inl UnicodeDecodeError.

(** The loops of [decode] that build a string, from the string [str]
    built so far: [for i, word in enumerate(words): s = ...; str += s]. *)
Fixpoint decode_string (str : list Z) (words : list Z) : error + list Z :=
  match words with
  | [] => inr str
  | word :: words' =>
      b ← to_bytes_2_big word;
      s ← decode_utf_8 b;
      decode_string (str ++ s)%list words'
  end.

(** [data[i]] for a non-negative index. *)
Definition getitem (data : list Z) (i : nat) : error + Z :=
  match data !! i with
  | Some v => inr v
  | None => inl IndexError
  end.

(** [data[lo:hi]]. *)
Definition getslice (data : list Z) (lo hi : nat) : list Z :=
  take (hi - lo) (drop lo data).

(** The attributes [decode] sets. *)
Record identify := mkIdentify {
  serial_number : list Z;
  firmware_revision : list Z;
  model_number : list Z;
  total_sectors : Z;
  capabilities : list (string * Z)
}.

(** [LiteSATABISTIdentifyDriver.decode], on [self.data]. *)
Definition decode (data : list Z) : error + identify :=
  serial_number ← decode_string [] (getslice data 10 20);
  firmware_revision ← decode_string [] (getslice data 23 27);
  model_number ← decode_string [] (getslice data 27 46);
  d100 ← getitem data 100;
  d101 ← getitem data 101;
  d102 ← getitem data 102;
  d103 ← getitem data 103;
  let total_sectors :=
    d100 + Z.shiftl d101 16 + Z.shiftl d102 32 + Z.shiftl d103 48 in
  d76 ← getitem data 76;
  d76' ← getitem data 76;
  d76'' ← getitem data 76;
  d83 ← getitem data 83;
  inr (mkIdentify serial_number firmware_revision model_number
         total_sectors
         [ ("SATA Gen1", Z.land (Z.shiftr d76 1) 1);
           ("SATA Gen2", Z.land (Z.shiftr d76' 2) 1);
           ("SATA Gen3", Z.land (Z.shiftr d76'' 3) 1);
           ("48 bits LBA supported", Z.land (Z.shiftr d83 10) 1) ]).



(** The two 16-bit halves of a dword, low half first. *)
Definition halves (dword : Z) : list Z :=
  [Z.land dword 65535; Z.land (Z.shiftr dword 16) 65535].

(** A word that [decode] turns into characters: a 16-bit value whose two
    bytes are ASCII or form one two-byte UTF-8 sequence. *)
Definition decodable (word : Z) : Prop :=
  0 <= word < 65536 /\
  ((Z.shiftr word 8 < 128 /\ Z.land word 255 < 128) \/
   (194 <= Z.shiftr word 8 <= 223 /\ 128 <= Z.land word 255 <= 191)).

#[global] Instance decodable_dec (word : Z) : Decision (decodable word).
Proof. unfold decodable. apply _. Defined.

(** A 16-bit word whose two bytes are ASCII. *)
Definition ascii_word (word : Z) : Prop :=
  0 <= word < 65536 /\ Z.shiftr word 8 < 128 /\ Z.land word 255 < 128.

(** The two characters of an ASCII word, high byte first. *)
Definition chars (word : Z) : list Z := [Z.shiftr word 8; Z.land word 255].

(** The characters [decode] makes of a decodable word. *)
Definition word_chars (word : Z) : list Z :=
  if decide (Z.shiftr word 8 < 128 /\ Z.land word 255 < 128)
  then chars word
  else [Z.lor (Z.shiftl (Z.land (Z.shiftr word 8) 31) 6)
              (Z.land (Z.land word 255) 63)].

(** The words of the three strings of [decode] are all decodable. *)
Definition strings_decodable (data : list Z) : Prop :=
  Forall decodable (getslice data 10 20) /\
  Forall decodable (getslice data 23 27) /\
  Forall decodable (getslice data 27 46).

(** The words of the three strings of [decode] are all ASCII. *)
Definition strings_ascii (data : list Z) : Prop :=
  Forall ascii_word (getslice data 10 20) /\
  Forall ascii_word (getslice data 23 27) /\
  Forall ascii_word (getslice data 27 46).

(** A device answer of 52 dwords: ASCII blanks in the strings, the sector
    count [lo + 2^32 * hi] in dwords 50 and 51. *)
Definition blank_answer (lo hi : Z) : list Z :=
  (replicate 50 (32 * 65536 * 257 + 32 * 257) ++ [lo; hi])%list.

(** ** Bit-level facts *)

Lemma testbit_b2z (b : bool) (k : Z) :
  Z.testbit (Z.b2z b) k = b && (k =? 0).
Proof. destruct k, b; reflexivity. Qed.

Lemma testbit_b2z_shiftl (b : bool) (i k : Z) :
  0 <= k ->
  Z.testbit (Z.shiftl (Z.b2z b) i) k = b && (k =? i).
Proof.
  intros Hk. rewrite Z.shiftl_spec by exact Hk. rewrite testbit_b2z.
  f_equal.
  destruct (Z.eqb_spec (k - i) 0), (Z.eqb_spec k i);
    first [reflexivity | exfalso; lia].
Qed.

Lemma testbit_Slice (v lo hi k : Z) :
  0 <= k -> 0 <= hi - lo ->
  Z.testbit (Slice v lo hi) k = Z.testbit v (k + lo) && (k <? hi - lo).
Proof.
  intros Hk Hw. unfold Slice.
  rewrite Z.land_spec, Z.shiftr_spec, Z.testbit_ones_nonneg by lia.
  reflexivity.
Qed.

Lemma bit_spec (v : Z) (i : nat) :
  bit v i = Z.b2z (Z.testbit v (Z.of_nat i)).
Proof.
  unfold bit, Slice.
  replace (Z.of_nat i + 1 - Z.of_nat i) with 1 by lia.
  rewrite Z.land_ones by lia. change (2 ^ 1) with 2.
  rewrite <- Z.bit0_mod, Z.shiftr_spec by lia. reflexivity.
Qed.

Lemma testbit_fits (w v k : Z) :
  fits w v -> w <= k -> Z.testbit v k = false.
Proof.
  intros [Hlo Hhi] Hk.
  destruct (Z_lt_le_dec w 0) as [Hneg|Hw].
  - rewrite Z.pow_neg_r in Hhi by lia. lia.
  - rewrite <- (Z.mod_small v (2 ^ w)) by lia.
    apply Z.mod_pow2_bits_high. lia.
Qed.

Lemma fits_1 (v : Z) : fits 1 v -> v = 0 \/ v = 1.
Proof. unfold fits. change (2 ^ 1) with 2. lia. Qed.

(** Bit [k] of a vector whose bit [j + i] is driven by the [i]-th element
    of a list. *)
Lemma testbit_driven_bits {A} (g : nat -> A -> bool) (l : list A) (j k : nat) :
  Z.testbit
    (foldr Z.lor 0
       (imap (fun i a => Z.shiftl (Z.b2z (g (j + i)%nat a))
                                  (Z.of_nat (j + i))) l))
    (Z.of_nat k)
  = if decide (j <= k)%nat
    then from_option (g k) false (l !! (k - j)%nat)
    else false.
Proof.
  revert j. induction l as [|a l IH]; intros j.
  - simpl. rewrite Z.bits_0. by case_decide.
  - rewrite imap_cons. simpl foldr. rewrite Z.lor_spec.
    rewrite testbit_b2z_shiftl by lia.
    rewrite (imap_ext _
      (fun i a => Z.shiftl (Z.b2z (g (S j + i)%nat a))
                           (Z.of_nat (S j + i))) l)
      by (intros i x _; simpl; by rewrite Nat.add_succ_r).
    rewrite IH. rewrite Nat.add_0_r.
    destruct (Z.eqb_spec (Z.of_nat k) (Z.of_nat j)) as [E|E];
      repeat case_decide; try lia.
    + assert (k = j) as -> by lia.
      rewrite Nat.sub_diag. simpl. by rewrite andb_true_r, orb_false_r.
    + rewrite andb_false_r. simpl.
      replace (k - j)%nat with (S (k - S j)) by lia. reflexivity.
Qed.

(** Bit [k] of [_slave_sel] is the comparator of entry [k]; the bits past
    the table are 0. *)
Lemma testbit_slave_sel (d : Decoder) (master : port) (k : nat) :
  Z.testbit (_slave_sel d master) (Z.of_nat k)
  = from_option (matches d (getattr master "adr_o")) false
      (addresses d !! k).
Proof.
  unfold _slave_sel, comparator, eq_bit.
  pose proof (testbit_driven_bits
    (fun _ addr => matches d (getattr master "adr_o") addr)
    (addresses d) 0 k) as H.
  simpl in H. rewrite Nat.sub_0_r in H. exact H.
Qed.

Lemma matches_falls_within (d : Decoder) (adr_o : Z) (addr : Constant) :
  pattern_ok d addr ->
  matches d adr_o addr = true <-> falls_within d adr_o addr.
Proof.
  intros [Hw Hfit]. unfold matches, falls_within. rewrite Z.eqb_eq. split.
  - intros <- k Hk. rewrite testbit_Slice by lia.
    replace (k <? hi d - (hi d - width (bv addr))) with true
      by (symmetry; apply Z.ltb_lt; lia).
    rewrite andb_true_r. f_equal. lia.
  - intros H. apply Z.bits_inj'. intros k Hk.
    rewrite testbit_Slice by lia.
    destruct (Z.ltb_spec k (hi d - (hi d - width (bv addr)))) as [Hlt|Hge].
    + rewrite andb_true_r, <- H by lia. f_equal. lia.
    + rewrite andb_false_r. symmetry.
      apply (testbit_fits (width (bv addr))); [exact Hfit | lia].
Qed.

Lemma Decoder_slaves_length (d : Decoder) (master : port) (ss : list port) :
  length (Decoder_slaves d master ss) = length ss.
Proof. unfold Decoder_slaves. apply length_imap. Qed.

Lemma getattr_insert (p : port) (name : string) (v : Z) :
  getattr (<[name := v]> p) name = v.
Proof. unfold getattr. by rewrite lookup_insert_eq. Qed.

Lemma getattr_insert_ne (p : port) (name name' : string) (v : Z) :
  name <> name' -> getattr (<[name := v]> p) name' = getattr p name'.
Proof. intros H. unfold getattr. by rewrite lookup_insert_ne. Qed.

(** What a slave reads on [cyc_i]. *)
Lemma Decoder_slaves_cyc_i (d : Decoder) (master : port) (ss : list port)
    (j : nat) (s' : port) :
  Decoder_slaves d master ss !! j = Some s' ->
  getattr s' "cyc_i"
  = Z.land (getattr master "cyc_o")
           (Z.b2z (from_option (matches d (getattr master "adr_o")) false
                               (addresses d !! j))).
Proof.
  unfold Decoder_slaves. rewrite list_lookup_imap.
  destruct (ss !! j) as [s|]; simpl; [|discriminate].
  intros [= <-]. rewrite getattr_insert, bit_spec, testbit_slave_sel.
  reflexivity.
Qed.

Lemma land_bit_true (v : Z) : fits 1 v -> Z.land v (Z.b2z true) = v.
Proof. intros H. destruct (fits_1 v H) as [-> | ->]; reflexivity. Qed.

Lemma land_bit_false (v : Z) : Z.land v (Z.b2z false) = 0.
Proof. apply Z.land_0_r. Qed.

Lemma at_most_one_bit_0 : at_most_one_bit 0.
Proof. intros i j H. rewrite Z.bits_0 in H. discriminate. Qed.

Lemma at_most_one_bit_slave_sel (d : Decoder) (master : port) :
  non_overlapping d ->
  fits (bv_width true "adr") (getattr master "adr_o") ->
  at_most_one_bit (_slave_sel d master).
Proof.
  intros Hno Hfit i j. rewrite !testbit_slave_sel.
  destruct (addresses d !! i) as [a|] eqn:Ha; simpl; [|discriminate].
  destruct (addresses d !! j) as [b|] eqn:Hb; simpl; [|discriminate].
  intros Hi Hj. exact (Hno _ i j a b Hfit Ha Hb Hi Hj).
Qed.

(** C1. With an address table whose patterns are pairwise non-overlapping,
    at every cycle at most one bit of [_slave_sel] is set and at most one
    bit of [_slave_sel_r] is set, whether the decoder is combinational or
    registered. *)
Theorem slave_sel_mutual_exclusion (d : Decoder) (tr : nat -> port) :
  non_overlapping d ->
  (forall t, fits (bv_width true "adr") (getattr (tr t) "adr_o")) ->
  forall t,
    at_most_one_bit (_slave_sel d (tr t)) /\
    at_most_one_bit (_slave_sel_r d (Decoder_reg d reset tr t) (tr t)).
Proof.
  intros Hno Hfit t.
  assert (Hsel : forall u, at_most_one_bit (_slave_sel d (tr u)))
    by (intros u; apply at_most_one_bit_slave_sel; auto).
  split; [apply Hsel|].
  unfold _slave_sel_r. destruct (register d) eqn:Hreg; [|apply Hsel].
  destruct t as [|t]; simpl.
  - apply at_most_one_bit_0.
  - unfold Decoder_sync. rewrite Hreg. apply Hsel.
Qed.

(** Which targets read [cyc_i] asserted, from the comparators. *)
Lemma cyc_i_routing (d : Decoder) (master : port) (ss : list port) :
  fits (bv_width true "cyc") (getattr master "cyc_o") ->
  let adr_o := getattr master "adr_o" in
  let ss' := Decoder_slaves d master ss in
  length ss' = length ss /\
  (forall i a,
     addresses d !! i = Some a ->
     matches d adr_o a = true ->
     (forall j b, j <> i -> addresses d !! j = Some b ->
                  matches d adr_o b = false) ->
     forall j s', ss' !! j = Some s' ->
       if decide (j = i)
       then getattr s' "cyc_i" = 1 <-> getattr master "cyc_o" = 1
       else getattr s' "cyc_i" = 0) /\
  ((forall j b, addresses d !! j = Some b -> matches d adr_o b = false) ->
   forall j s', ss' !! j = Some s' -> getattr s' "cyc_i" = 0).
Proof.
  intros Hcyc adr_o ss'.
  assert (Hlow : forall j s',
            ss' !! j = Some s' ->
            (forall b, addresses d !! j = Some b ->
                       matches d adr_o b = false) ->
            getattr s' "cyc_i" = 0).
  { intros j s' Hs' Hnot.
    rewrite (Decoder_slaves_cyc_i _ _ _ _ _ Hs'). fold adr_o.
    destruct (addresses d !! j) as [b|] eqn:Hb; cbn [from_option].
    - rewrite (Hnot b eq_refl). apply land_bit_false.
    - apply land_bit_false. }
  split; [apply Decoder_slaves_length|]. split.
  - intros i a Ha Hin Huniq j s' Hs'. case_decide as Hj.
    + subst j. rewrite (Decoder_slaves_cyc_i _ _ _ _ _ Hs'). fold adr_o.
      rewrite Ha. cbn [from_option]. rewrite Hin.
      by rewrite land_bit_true.
    + apply (Hlow j s' Hs'). intros b Hb. exact (Huniq j b Hj Hb).
  - intros Hnone j s' Hs'. apply (Hlow j s' Hs').
    intros b Hb. exact (Hnone j b Hb).
Qed.

(** C3. When the address falls within exactly one pattern of the table
    (the comparator of the entry holds: the address bits from position
    [hi - width] up to [hi], with [hi = 32 - offset], equal the pattern),
    the target of that entry reads [cyc_i] asserted if and only if the
    master drives [cyc_o] asserted, and every other target reads [cyc_i]
    low; when the address falls within no pattern, every target reads
    [cyc_i] low.  [matches_falls_within] reads the comparator bit by
    bit. *)
Theorem decode_correctness (d : Decoder) (master : port) (ss : list port) :
  fits (bv_width true "cyc") (getattr master "cyc_o") ->
  let adr_o := getattr master "adr_o" in
  let ss' := Decoder_slaves d master ss in
  length ss' = length ss /\
  (forall i a,
     addresses d !! i = Some a ->
     matches d adr_o a = true ->
     (forall j b, j <> i -> addresses d !! j = Some b ->
                  matches d adr_o b = false) ->
     forall j s', ss' !! j = Some s' ->
       if decide (j = i)
       then getattr s' "cyc_i" = 1 <-> getattr master "cyc_o" = 1
       else getattr s' "cyc_i" = 0) /\
  ((forall j b, addresses d !! j = Some b -> matches d adr_o b = false) ->
   forall j s', ss' !! j = Some s' -> getattr s' "cyc_i" = 0).
Proof. exact (cyc_i_routing d master ss). Qed.

(** The same, with the patterns read bit by bit, for a table whose
    patterns lie inside the decoded window. *)
Lemma decode_correctness_bits (d : Decoder) (master : port)
    (ss : list port) (i : nat) (a : Constant) :
  Forall (pattern_ok d) (addresses d) ->
  fits (bv_width true "cyc") (getattr master "cyc_o") ->
  addresses d !! i = Some a ->
  falls_within d (getattr master "adr_o") a ->
  (forall j b, j <> i -> addresses d !! j = Some b ->
               ~ falls_within d (getattr master "adr_o") b) ->
  forall j s', Decoder_slaves d master ss !! j = Some s' ->
    if decide (j = i)
    then getattr s' "cyc_i" = 1 <-> getattr master "cyc_o" = 1
    else getattr s' "cyc_i" = 0.
Proof.
  intros Hok Hcyc Ha Hin Huniq. rewrite Forall_lookup in Hok.
  apply (proj1 (proj2 (cyc_i_routing d master ss Hcyc)) i a Ha).
  - by apply (matches_falls_within d _ a (Hok i a Ha)).
  - intros j b Hj Hb.
    destruct (matches d (getattr master "adr_o") b) eqn:E; [|reflexivity].
    exfalso. apply (Huniq j b Hj Hb).
    by apply (matches_falls_within d _ b (Hok j b Hb)).
Qed.

Lemma two_targets_non_overlapping (register : bool) :
  non_overlapping (two_targets register).
Proof.
  intros adr_o i j a b _ Ha Hb Hma Hmb.
  unfold matches in Hma, Hmb.
  apply Z.eqb_eq in Hma. apply Z.eqb_eq in Hmb.
  destruct i as [|[|i]], j as [|[|j]]; try discriminate; try reflexivity;
    injection Ha as <-; injection Hb as <-;
    cbn [n bv width] in Hma, Hmb; congruence.
Qed.

Lemma alternating_fits (t : nat) :
  fits (bv_width true "adr") (getattr (alternating t) "adr_o").
Proof.
  unfold alternating. rewrite getattr_insert.
  destruct (Nat.even t); vm_compute; split; congruence.
Qed.

Lemma slave_sel_mutual_exclusion_witness :
  at_most_one_bit (_slave_sel (two_targets true) (alternating 3)) /\
  at_most_one_bit
    (_slave_sel_r (two_targets true)
       (Decoder_reg (two_targets true) reset alternating 3) (alternating 3)).
Proof.
  apply (slave_sel_mutual_exclusion (two_targets true) alternating).
  - apply two_targets_non_overlapping.
  - apply alternating_fits.
Defined.

Lemma decode_correctness_witness :
  let d := two_targets false in
  let master := alternating 0 in
  let ss' := Decoder_slaves d master [Slave; Slave] in
  matches d (getattr master "adr_o") (mkConstant 0 (mkBV 1)) = true /\
  (exists s0, ss' !! 0%nat = Some s0 /\
              (getattr s0 "cyc_i" = 1 <-> getattr master "cyc_o" = 1)) /\
  (exists s1, ss' !! 1%nat = Some s1 /\ getattr s1 "cyc_i" = 0).
Proof.
  intros d master ss'.
  assert (Hin : matches d (getattr master "adr_o") (mkConstant 0 (mkBV 1))
                = true) by (by vm_compute).
  split; [exact Hin|].
  assert (Hcyc : fits (bv_width true "cyc") (getattr master "cyc_o"))
    by (vm_compute; split; congruence).
  assert (Huniq : forall j b, j <> 0%nat -> addresses d !! j = Some b ->
                              matches d (getattr master "adr_o") b = false).
  { intros j b Hj Hb.
    destruct j as [|[|j]]; [congruence | | discriminate].
    injection Hb as <-. by vm_compute. }
  pose proof (proj1 (proj2 (decode_correctness d master [Slave; Slave] Hcyc))
                    0%nat (mkConstant 0 (mkBV 1)) eq_refl Hin Huniq) as H.
  split.
  - destruct (ss' !! 0%nat) as [s0|] eqn:E.
    + exists s0. split; [reflexivity|]. exact (H 0%nat s0 E).
    + apply lookup_ge_None in E. unfold ss' in E.
      rewrite Decoder_slaves_length in E. cbn in E. lia.
  - destruct (ss' !! 1%nat) as [s1|] eqn:E.
    + exists s1. split; [reflexivity|]. exact (H 1%nat s1 E).
    + apply lookup_ge_None in E. unfold ss' in E.
      rewrite Decoder_slaves_length in E. cbn in E. lia.
Defined.

(** ** The response path of the decoder *)

Lemma Decoder_master_ack_i (d : Decoder) (r : Z) (master : port)
    (ss : list port) :
  getattr (Decoder_master d r master ss) "ack_i" = ackv ss.
Proof.
  unfold Decoder_master.
  rewrite !getattr_insert_ne by discriminate. apply getattr_insert.
Qed.

Lemma Decoder_master_err_i (d : Decoder) (r : Z) (master : port)
    (ss : list port) :
  getattr (Decoder_master d r master ss) "err_i" = errv ss.
Proof.
  unfold Decoder_master.
  rewrite getattr_insert_ne by discriminate. apply getattr_insert.
Qed.

Lemma Decoder_master_dat_i (d : Decoder) (r : Z) (master : port)
    (ss : list port) :
  getattr (Decoder_master d r master ss) "dat_i"
  = datav (_slave_sel_r d r master) ss.
Proof. unfold Decoder_master. apply getattr_insert. Qed.

Lemma testbit_foldl_lor {A} (f : A -> Z) (l : list A) (a0 k : Z) :
  Z.testbit (foldl (fun acc s => Z.lor acc (f s)) a0 l) k = true <->
  Z.testbit a0 k = true \/
  exists t s, l !! t = Some s /\ Z.testbit (f s) k = true.
Proof.
  revert a0. induction l as [|a l IH]; intros a0; simpl.
  - split; [auto|]. intros [H|(t & s & Ht & _)]; [exact H|discriminate].
  - rewrite IH, Z.lor_spec, orb_true_iff. split.
    + intros [[H|H]|(t & s & Ht & Hs)]; [by left| |].
      * right. by exists 0%nat, a.
      * right. by exists (S t), s.
    + intros [H|(t & s & Ht & Hs)]; [by left; left|].
      destruct t as [|t]; simpl in Ht.
      * injection Ht as ->. by left; right.
      * right. by exists t, s.
Qed.

Lemma foldl_lor_zero {A} (f : A -> Z) (l : list A) (a0 : Z) :
  (forall j s, l !! j = Some s -> f s = 0) ->
  foldl (fun acc s => Z.lor acc (f s)) a0 l = a0.
Proof.
  revert a0. induction l as [|a l IH]; intros a0 Hz; simpl; [reflexivity|].
  rewrite (Hz 0%nat a eq_refl), Z.lor_0_r.
  apply IH. intros j s Hs. exact (Hz (S j) s Hs).
Qed.

(** An OR-reduction in which a single element may be non-zero selects that
    element. *)
Lemma foldl_lor_single {A} (f : A -> Z) (l : list A) (a0 : Z) (t : nat)
    (s : A) :
  l !! t = Some s ->
  (forall j s', j <> t -> l !! j = Some s' -> f s' = 0) ->
  foldl (fun acc s => Z.lor acc (f s)) a0 l = Z.lor a0 (f s).
Proof.
  revert a0 t. induction l as [|a l IH]; intros a0 t Ht Hz; [discriminate|].
  destruct t as [|t]; simpl in Ht |- *.
  - injection Ht as ->. apply foldl_lor_zero.
    intros j s' Hs'. apply (Hz (S j) s'); [lia | exact Hs'].
  - rewrite (Hz 0%nat a) by (lia || reflexivity). rewrite Z.lor_0_r.
    apply (IH a0 t Ht). intros j s' Hj Hs'.
    apply (Hz (S j) s'); [lia | exact Hs'].
Qed.

(** A target whose select bit is low reads [cyc_i] low. *)
Lemma unselected_cyc_i_low (d : Decoder) (master : port) (ss : list port)
    (j : nat) (s' : port) :
  Decoder_slaves d master ss !! j = Some s' ->
  Z.testbit (_slave_sel d master) (Z.of_nat j) = false ->
  getattr s' "cyc_i" = 0.
Proof.
  intros Hs' Hbit. rewrite (Decoder_slaves_cyc_i _ _ _ _ _ Hs').
  rewrite testbit_slave_sel in Hbit. rewrite Hbit. apply land_bit_false.
Qed.

Lemma others_silent (d : Decoder) (master : port) (ss : list port) (t : nat) :
  targets_in_order d master ss ->
  at_most_one_bit (_slave_sel d master) ->
  Z.testbit (_slave_sel d master) (Z.of_nat t) = true ->
  forall j s, j <> t -> ss !! j = Some s ->
    getattr s "ack_o" = 0 /\ getattr s "err_o" = 0.
Proof.
  intros Hord Hone Ht j s Hj Hs.
  assert (exists s', Decoder_slaves d master ss !! j = Some s') as [s' Hs'].
  { apply lookup_lt_is_Some. rewrite Decoder_slaves_length.
    apply lookup_lt_is_Some. eauto. }
  apply (Hord j s s' Hs Hs').
  apply (unselected_cyc_i_low d master ss j s' Hs').
  destruct (Z.testbit (_slave_sel d master) (Z.of_nat j)) eqn:E;
    [|reflexivity].
  exfalso. apply Hj. exact (Hone j t E Ht).
Qed.

(** C6. The acknowledge (error) delivered to the shared master is the OR
    of the acknowledges (errors) of all targets; when the targets keep
    [ack_o]/[err_o] low while their [cyc_i] is low and at most one select
    bit is set, it is the acknowledge (error) of the selected target. *)
Theorem response_or_reduction (d : Decoder) (r : Z) (master : port)
    (ss : list port) :
  let master' := Decoder_master d r master ss in
  (forall k, Z.testbit (getattr master' "ack_i") k = true <->
             exists t s, ss !! t = Some s /\
                         Z.testbit (getattr s "ack_o") k = true) /\
  (forall k, Z.testbit (getattr master' "err_i") k = true <->
             exists t s, ss !! t = Some s /\
                         Z.testbit (getattr s "err_o") k = true) /\
  (targets_in_order d master ss ->
   at_most_one_bit (_slave_sel d master) ->
   forall t s,
     ss !! t = Some s ->
     Z.testbit (_slave_sel d master) (Z.of_nat t) = true ->
     getattr master' "ack_i" = getattr s "ack_o" /\
     getattr master' "err_i" = getattr s "err_o").
Proof.
  intros master'. unfold master'.
  rewrite Decoder_master_ack_i, Decoder_master_err_i.
  split; [|split].
  - intros k. unfold ackv. rewrite testbit_foldl_lor, Z.bits_0.
    split; [intros [H|H]; [discriminate|exact H] | auto].
  - intros k. unfold errv. rewrite testbit_foldl_lor, Z.bits_0.
    split; [intros [H|H]; [discriminate|exact H] | auto].
  - intros Hord Hone t s Hs Ht.
    pose proof (others_silent d master ss t Hord Hone Ht) as Hsil.
    unfold ackv, errv. split.
    + rewrite (foldl_lor_single _ ss 0 t s Hs); [apply Z.lor_0_l|].
      intros j s' Hj Hs'. exact (proj1 (Hsil j s' Hj Hs')).
    + rewrite (foldl_lor_single _ ss 0 t s Hs); [apply Z.lor_0_l|].
      intros j s' Hj Hs'. exact (proj2 (Hsil j s' Hj Hs')).
Qed.

(** C4. In a registered decoder [_slave_sel_r] at cycle [t + 1] is
    [_slave_sel] at cycle [t]; in a combinational decoder it is
    [_slave_sel] of the same cycle.  In both, [_slave_sel_r] enters only the
    read-data multiplexer: [cyc_i] of each target is gated by the bit of
    [_slave_sel] of the current cycle, and no signal driven by the decoder
    other than [dat_i] depends on the content of the flip-flops. *)
Theorem registered_select (d : Decoder) (r0 : Z) (tr : nat -> port) :
  (register d = true ->
   forall t, _slave_sel_r d (Decoder_reg d r0 tr (S t)) (tr (S t))
             = _slave_sel d (tr t)) /\
  (register d = false ->
   forall t, _slave_sel_r d (Decoder_reg d r0 tr t) (tr t)
             = _slave_sel d (tr t)) /\
  (forall r master ss,
     getattr (Decoder_get_fragment d r master ss).1.1 "dat_i"
     = datav (_slave_sel_r d r master) ss /\
     (forall j s', (Decoder_get_fragment d r master ss).1.2 !! j = Some s' ->
        getattr s' "cyc_i"
        = Z.land (getattr master "cyc_o") (bit (_slave_sel d master) j)) /\
     (forall r',
        (Decoder_get_fragment d r' master ss).1.2
        = (Decoder_get_fragment d r master ss).1.2 /\
        forall name, name <> "dat_i" ->
          getattr (Decoder_get_fragment d r' master ss).1.1 name
          = getattr (Decoder_get_fragment d r master ss).1.1 name)).
Proof.
  split; [|split].
  - intros Hreg t. unfold _slave_sel_r. rewrite Hreg.
    cbn [Decoder_reg]. unfold Decoder_sync. by rewrite Hreg.
  - intros Hreg t. unfold _slave_sel_r. by rewrite Hreg.
  - intros r master ss. cbn [Decoder_get_fragment fst snd].
    split; [apply Decoder_master_dat_i|]. split.
    + intros j s'. unfold Decoder_slaves. rewrite list_lookup_imap.
      destruct (ss !! j) as [s|]; [|discriminate].
      intros [= <-]. apply getattr_insert.
    + intros r'. split; [reflexivity|]. intros name Hname.
      unfold Decoder_master. by rewrite !(getattr_insert_ne _ "dat_i").
Qed.

Lemma registered_select_witness :
  _slave_sel_r (two_targets true)
     (Decoder_reg (two_targets true) reset alternating 2) (alternating 2)
  = _slave_sel (two_targets true) (alternating 1) /\
  _slave_sel_r (two_targets false)
     (Decoder_reg (two_targets false) reset alternating 2) (alternating 2)
  = _slave_sel (two_targets false) (alternating 2).
Proof.
  split.
  - exact (proj1 (registered_select (two_targets true) reset alternating)
                 eq_refl 1%nat).
  - exact (proj1 (proj2 (registered_select (two_targets false) reset
                           alternating))
                 eq_refl 2%nat).
Defined.

Lemma first_answers_in_order :
  targets_in_order (two_targets false) (alternating 0) first_answers.
Proof.
  intros j s s' Hs Hs' Hcyc.
  destruct j as [|[|j]]; try discriminate.
  - exfalso. rewrite (Decoder_slaves_cyc_i _ _ _ _ _ Hs') in Hcyc.
    vm_compute in Hcyc. discriminate.
  - injection Hs as <-. by vm_compute.
Qed.

Lemma response_or_reduction_witness :
  getattr (Decoder_master (two_targets false) reset (alternating 0)
             first_answers) "ack_i" = 1 /\
  getattr (Decoder_master (two_targets false) reset (alternating 0)
             first_answers) "err_i" = 0.
Proof.
  refine (proj2 (proj2 (response_or_reduction (two_targets false) reset
                          (alternating 0) first_answers))
                first_answers_in_order _ 0%nat _ eq_refl _).
  - apply at_most_one_bit_slave_sel;
      [apply two_targets_non_overlapping | apply alternating_fits].
  - by vm_compute.
Defined.

(** ** Arbiter *)

Lemma Arbiter_s2m_names_eq : Arbiter_s2m_names = ["dat_i"; "ack_i"; "err_i"].
Proof. reflexivity. Qed.

Lemma Arbiter_m2s_names_eq :
  Arbiter_m2s_names
  = ["adr_o"; "dat_o"; "sel_o"; "cyc_o"; "stb_o"; "we_o"; "cti_o"; "bte_o"].
Proof. reflexivity. Qed.

Lemma Arbiter_masters_length (grant : Z) (masters : list port)
    (target : port) :
  length (Arbiter_masters grant masters target) = length masters.
Proof.
  unfold Arbiter_masters. rewrite Arbiter_s2m_names_eq. cbn [foldl].
  by rewrite !length_imap.
Qed.

(** The port of initiator [i] after the slave-to-master connections. *)
Lemma Arbiter_masters_lookup (grant : Z) (masters : list port)
    (target : port) (i : nat) :
  Arbiter_masters grant masters target !! i
  = (fun m =>
       <["err_i" := Z.land (getattr target "err_i")
                           (eq_bit grant (Z.of_nat i))]>
         (<["ack_i" := Z.land (getattr target "ack_i")
                              (eq_bit grant (Z.of_nat i))]>
            (<["dat_i" := getattr target "dat_i"]> m)))
    <$> masters !! i.
Proof.
  unfold Arbiter_masters. rewrite Arbiter_s2m_names_eq. cbn [foldl].
  rewrite !list_lookup_imap. destruct (masters !! i) as [m|]; [|reflexivity].
  cbn [fmap option_fmap option_map].
  rewrite (decide_False (P := "dat_i" = "ack_i" \/ "dat_i" = "err_i"))
    by (intros [?|?]; discriminate).
  rewrite (decide_True (P := "ack_i" = "ack_i" \/ "ack_i" = "err_i"))
    by (by left).
  rewrite (decide_True (P := "err_i" = "ack_i" \/ "err_i" = "err_i"))
    by (by right).
  reflexivity.
Qed.

(** C2. An initiator that does not hold the grant reads [ack_i] and
    [err_i] at 0 whatever the shared port carries; the initiator that holds
    the grant reads the [ack_i] and [err_i] of the shared port. *)
Theorem response_isolation (grant : Z) (masters : list port) (target : port)
    (i : nat) (m' : port) :
  Arbiter_masters grant masters target !! i = Some m' ->
  (grant <> Z.of_nat i ->
   getattr m' "ack_i" = 0 /\ getattr m' "err_i" = 0) /\
  (grant = Z.of_nat i ->
   fits (bv_width false "ack") (getattr target "ack_i") ->
   fits (bv_width false "err") (getattr target "err_i") ->
   getattr m' "ack_i" = getattr target "ack_i" /\
   getattr m' "err_i" = getattr target "err_i").
Proof.
  rewrite Arbiter_masters_lookup.
  destruct (masters !! i) as [m|]; [|discriminate].
  intros [= <-].
  rewrite getattr_insert, getattr_insert_ne, getattr_insert by discriminate.
  unfold eq_bit. split.
  - intros Hne. destruct (Z.eqb_spec grant (Z.of_nat i)); [contradiction|].
    by rewrite !land_bit_false.
  - intros -> Hack Herr. rewrite Z.eqb_refl.
    by rewrite !land_bit_true.
Qed.

Lemma response_isolation_witness :
  (exists m2, Arbiter_masters 0 three_masters acked !! 2%nat = Some m2 /\
              getattr m2 "ack_i" = 0 /\ getattr m2 "err_i" = 0) /\
  (exists m0, Arbiter_masters 0 three_masters acked !! 0%nat = Some m0 /\
              getattr m0 "ack_i" = getattr acked "ack_i" /\
              getattr m0 "err_i" = getattr acked "err_i").
Proof.
  split.
  - destruct (Arbiter_masters 0 three_masters acked !! 2%nat) as [m2|] eqn:E.
    + exists m2. split; [reflexivity|].
      apply (proj1 (response_isolation 0 three_masters acked 2 m2 E)).
      discriminate.
    + apply lookup_ge_None in E. rewrite Arbiter_masters_length in E.
      cbn in E. lia.
  - destruct (Arbiter_masters 0 three_masters acked !! 0%nat) as [m0|] eqn:E.
    + exists m0. split; [reflexivity|].
      apply (proj2 (response_isolation 0 three_masters acked 0 m0 E));
        [reflexivity | |]; vm_compute; split; congruence.
    + apply lookup_ge_None in E. rewrite Arbiter_masters_length in E.
      cbn in E. lia.
Defined.

(** The value read on a signal after a list of signals has been driven,
    each by the value at the same position. *)
Lemma getattr_driven (names : list string) (vals : list Z) (target : port)
    (k : nat) (name : string) (v : Z) :
  NoDup names ->
  names !! k = Some name -> vals !! k = Some v ->
  getattr (foldr (fun nv t => <[nv.1 := nv.2]> t) target (zip names vals))
          name = v.
Proof.
  revert vals k.
  induction names as [|x names IH]; intros vals k Hnd Hn Hv; [discriminate|].
  destruct vals as [|y vals]; [discriminate|].
  apply NoDup_cons in Hnd as [Hx Hnd].
  destruct k as [|k]; cbn [zip_with foldr fst snd].
  - injection Hn as ->. injection Hv as ->. apply getattr_insert.
  - cbn in Hn, Hv. rewrite getattr_insert_ne.
    + exact (IH vals k Hnd Hn Hv).
    + intros ->. apply Hx. apply list_elem_of_lookup. eauto.
Qed.

Lemma multimux_granted (grant : Z) (inputs : list (list Z))
    (output vals : list Z) :
  0 <= grant -> inputs !! Z.to_nat grant = Some vals ->
  multimux grant inputs output = vals.
Proof.
  intros Hg Hin. unfold multimux. rewrite decide_True by exact Hg.
  by rewrite Hin.
Qed.

Lemma Arbiter_target_granted (grant : Z) (masters : list port)
    (target m : port) (name : string) :
  0 <= grant -> masters !! Z.to_nat grant = Some m ->
  name ∈ Arbiter_m2s_names ->
  getattr (Arbiter_target grant masters target) name = getattr m name.
Proof.
  intros Hg Hm Hname. apply list_elem_of_lookup in Hname as [k Hk].
  unfold Arbiter_target.
  rewrite (multimux_granted _ _ _ (getattr m <$> Arbiter_m2s_names) Hg)
    by (by rewrite list_lookup_fmap, Hm).
  apply (getattr_driven _ _ _ k).
  - rewrite Arbiter_m2s_names_eq. compute_done.
  - exact Hk.
  - by rewrite list_lookup_fmap, Hk.
Qed.

(** C7. For every master-to-slave signal other than [cyc] the shared port
    carries the value driven by the initiator that holds the grant, and the
    whole shared port is the same whatever the other initiators drive. *)
Theorem forward_mux (grant : Z) (masters : list port) (target m : port) :
  0 <= grant -> masters !! Z.to_nat grant = Some m ->
  Forall (fun name =>
            getattr (Arbiter_target grant masters target) name
            = getattr m name)
         ["adr_o"; "dat_o"; "sel_o"; "stb_o"; "we_o"; "cti_o"; "bte_o"] /\
  (forall masters2,
     masters2 !! Z.to_nat grant = Some m ->
     Arbiter_target grant masters2 target
     = Arbiter_target grant masters target).
Proof.
  intros Hg Hm. split.
  - repeat (constructor;
              [apply (Arbiter_target_granted grant masters target m _ Hg Hm);
               rewrite Arbiter_m2s_names_eq; compute_done|]).
    constructor.
  - intros masters2 Hm2. unfold Arbiter_target.
    rewrite !(multimux_granted _ _ _ (getattr m <$> Arbiter_m2s_names) Hg);
      [reflexivity | by rewrite list_lookup_fmap, Hm
                   | by rewrite list_lookup_fmap, Hm2].
Qed.

Lemma forward_mux_witness :
  getattr (Arbiter_target 2 three_masters Master) "adr_o" = 2 ^ 31 + 4 /\
  getattr (Arbiter_target 2 three_masters Master) "dat_o" = 12.
Proof.
  pose proof (proj1 (forward_mux 2 three_masters Master
                       (<["dat_o" := 12]>
                          (<["adr_o" := 2 ^ 31 + 4]>
                             (<["cyc_o" := 1]> Master)))
                       ltac:(lia) eq_refl)) as H.
  split.
  - rewrite (Forall_lookup_1 _ _ 0 "adr_o" H eq_refl). by vm_compute.
  - rewrite (Forall_lookup_1 _ _ 1 "dat_o" H eq_refl). by vm_compute.
Defined.

(** ** The read-data path of the interconnect *)

Lemma Replicate_bit (b : bool) :
  Replicate 1 (Z.b2z b) (Z.to_nat (bv_width false "dat"))
  = if b then Z.ones (bv_width false "dat") else 0.
Proof. by destruct b. Qed.

(** The one-hot multiplexer returns the data of the selected target. *)
Lemma datav_one_hot (sel_r : Z) (ss : list port) (t : nat) (s : port) :
  at_most_one_bit sel_r ->
  Z.testbit sel_r (Z.of_nat t) = true ->
  ss !! t = Some s ->
  fits (bv_width false "dat") (getattr s "dat_o") ->
  datav sel_r ss = getattr s "dat_o".
Proof.
  intros Hone Ht Hs Hfit. unfold datav.
  rewrite (foldl_lor_single (fun v => v) _ 0 t
             (Z.land (Z.ones (bv_width false "dat")) (getattr s "dat_o"))).
  - rewrite Z.lor_0_l, Z.land_comm, Z.land_ones by (by vm_compute).
    apply Z.mod_small. exact Hfit.
  - rewrite list_lookup_imap, Hs. cbn [fmap option_fmap option_map].
    by rewrite bit_spec, Ht, Replicate_bit.
  - intros j v Hj. rewrite list_lookup_imap.
    destruct (ss !! j) as [s'|]; [|discriminate].
    intros [= <-]. rewrite bit_spec.
    destruct (Z.testbit sel_r (Z.of_nat j)) eqn:E.
    + exfalso. apply Hj. exact (Hone j t E Ht).
    + by rewrite Replicate_bit.
Qed.

Lemma Interconnect_masters_eq (d : Decoder) (r0 : Z) (tr : nat -> cycle)
    (t : nat) :
  Interconnect_masters d r0 tr t
  = Arbiter_masters (c_grant (tr t)) (c_masters (tr t))
      (Decoder_master d (Interconnect_reg d r0 tr t)
         (shared_m2s (c_grant (tr t)) (c_masters (tr t)))
         (c_slaves (tr t))).
Proof. reflexivity. Qed.

Lemma Interconnect_reg_S (d : Decoder) (r0 : Z) (tr : nat -> cycle)
    (t : nat) :
  Interconnect_reg d r0 tr (S t)
  = Decoder_sync d (Interconnect_reg d r0 tr t)
      (shared_m2s (c_grant (tr t)) (c_masters (tr t))).
Proof. reflexivity. Qed.

(** Every initiator reads the [dat_i] of the shared port. *)
Lemma Interconnect_masters_dat_i (d : Decoder) (r0 : Z) (tr : nat -> cycle)
    (t i : nat) (m' : port) :
  Interconnect_masters d r0 tr t !! i = Some m' ->
  getattr m' "dat_i"
  = datav (_slave_sel_r d (Interconnect_reg d r0 tr t)
             (shared_m2s (c_grant (tr t)) (c_masters (tr t))))
          (c_slaves (tr t)).
Proof.
  rewrite Interconnect_masters_eq, Arbiter_masters_lookup.
  destruct (c_masters (tr t) !! i) as [m|]; [|discriminate].
  intros [= <-]. rewrite !getattr_insert_ne by discriminate.
  rewrite getattr_insert. apply Decoder_master_dat_i.
Qed.

(** C5, as amended.  When target [target] is the one selected target at
    cycle [t]: around a combinational decoder every initiator (so the one
    that holds the grant) reads at cycle [t] the [dat_o] that the target
    drives at cycle [t]; around a registered decoder every initiator reads
    at cycle [t + 1] the [dat_o] that the target drives at cycle
    [t + 1]. *)
Theorem round_trip_data (d : Decoder) (r0 : Z) (tr : nat -> cycle)
    (t target : nat) :
  let shr := shared_m2s (c_grant (tr t)) (c_masters (tr t)) in
  at_most_one_bit (_slave_sel d shr) ->
  Z.testbit (_slave_sel d shr) (Z.of_nat target) = true ->
  (register d = false ->
   forall s X,
     c_slaves (tr t) !! target = Some s ->
     getattr s "dat_o" = X -> fits (bv_width false "dat") X ->
     forall i m', Interconnect_masters d r0 tr t !! i = Some m' ->
                  getattr m' "dat_i" = X) /\
  (register d = true ->
   forall s1,
     c_slaves (tr (S t)) !! target = Some s1 ->
     fits (bv_width false "dat") (getattr s1 "dat_o") ->
     forall i m', Interconnect_masters d r0 tr (S t) !! i = Some m' ->
                  getattr m' "dat_i" = getattr s1 "dat_o").
Proof.
  intros shr Hone Hsel. split.
  - intros Hreg s X Hs <- Hfit i m' Hm'.
    rewrite (Interconnect_masters_dat_i _ _ _ _ _ _ Hm').
    unfold _slave_sel_r. rewrite Hreg.
    exact (datav_one_hot _ _ target s Hone Hsel Hs Hfit).
  - intros Hreg s1 Hs1 Hfit i m' Hm'.
    rewrite (Interconnect_masters_dat_i _ _ _ _ _ _ Hm').
    unfold _slave_sel_r. rewrite Hreg, Interconnect_reg_S.
    unfold Decoder_sync. rewrite Hreg.
    exact (datav_one_hot _ _ target s1 Hone Hsel Hs1 Hfit).
Qed.

Lemma changing_data_selects_A (t : nat) :
  let shr := shared_m2s (c_grant (changing_data t))
               (c_masters (changing_data t)) in
  at_most_one_bit (_slave_sel (two_targets true) shr) /\
  Z.testbit (_slave_sel (two_targets true) shr) 0 = true.
Proof.
  split.
  - apply at_most_one_bit_slave_sel; [apply two_targets_non_overlapping|].
    vm_compute. split; congruence.
  - by vm_compute.
Qed.

Lemma round_trip_data_witness :
  exists m', Interconnect_masters (two_targets true) reset changing_data 1
               !! 0%nat = Some m' /\
             getattr m' "dat_i" = 7.
Proof.
  destruct (Interconnect_masters (two_targets true) reset changing_data 1
              !! 0%nat) as [m'|] eqn:E.
  - exists m'. split; [reflexivity|].
    destruct (changing_data_selects_A 0) as [Hone Hsel].
    exact (proj2 (round_trip_data (two_targets true) reset changing_data
                    0 0 Hone Hsel)
                 eq_refl _ eq_refl ltac:(vm_compute; split; congruence)
                 0%nat m' E).
  - apply lookup_ge_None in E.
    rewrite Interconnect_masters_eq, Arbiter_masters_length in E.
    cbn in E. lia.
Defined.

(** C5, as stated, fails around a registered decoder: target A is the one
    selected target at cycle 0 and drives [dat_o = 5] then, yet one cycle
    later the initiator that holds the grant reads [dat_i = 7], the value
    target A drives during cycle 1. *)
Lemma round_trip_registered_counterexample :
  let d := two_targets true in
  let shr := shared_m2s (c_grant (changing_data 0))
               (c_masters (changing_data 0)) in
  register d = true /\
  at_most_one_bit (_slave_sel d shr) /\
  Z.testbit (_slave_sel d shr) 0 = true /\
  (fun s => getattr s "dat_o") <$> c_slaves (changing_data 0) !! 0%nat
  = Some 5 /\
  (fun m => getattr m "dat_i") <$>
    Interconnect_masters d reset changing_data 1
      !! Z.to_nat (c_grant (changing_data 1))
  = Some 7 /\
  7 <> 5.
Proof.
  intros d shr.
  destruct (changing_data_selects_A 0) as [Hone Hsel].
  split; [reflexivity|]. split; [exact Hone|]. split; [exact Hsel|].
  split; [by vm_compute|]. split; [by vm_compute | discriminate].
Qed.

(** ** Requests and round-robin fairness *)

(** Bit [i] of the request vector is [cyc_o] of initiator [i]. *)
Lemma testbit_Arbiter_request (masters : list port) (i : nat) (m : port) :
  Forall (fun m => fits (bv_width true "cyc") (getattr m "cyc_o")) masters ->
  masters !! i = Some m ->
  Z.testbit (Arbiter_request masters) (Z.of_nat i)
  = Z.testbit (getattr m "cyc_o") 0.
Proof.
  unfold Arbiter_request. change (bv_width true "cyc") with 1.
  revert i. induction masters as [|x masters IH]; intros i Hfit Hm;
    [discriminate|].
  apply Forall_cons in Hfit as [Hx Hfit].
  rewrite fmap_cons. cbn [Cat]. rewrite Z.lor_spec.
  destruct i as [|i]; cbn in Hm.
  - injection Hm as ->. rewrite Z.shiftl_spec_low by lia.
    apply orb_false_r.
  - rewrite (testbit_fits 1 _ _ Hx) by lia.
    rewrite Z.shiftl_spec by lia.
    replace (Z.of_nat (S i) - 1) with (Z.of_nat i) by lia.
    exact (IH i Hfit Hm).
Qed.

Lemma rr_evaluate_next (n : nat) (request : Z) (p : nat) :
  (0 < n)%nat ->
  (forall i, (i < n)%nat -> Z.testbit request (Z.of_nat i) = true) ->
  rr_evaluate n request p = Some ((p + 1) mod n)%nat.
Proof.
  intros Hn Hreq. unfold rr_evaluate.
  destruct n as [|n]; [lia|].
  cbn [seq fmap list_fmap List.find]. rewrite Nat.add_0_r.
  rewrite Hreq; [reflexivity|]. apply Nat.mod_upper_bound. lia.
Qed.

Section Fairness.
Variables (n p0 : nat) (tr : nat -> list port).
Hypothesis n_pos : (0 < n)%nat.
Hypothesis tr_length : forall t, length (tr t) = n.
Hypothesis tr_requesting :
  forall t m, m ∈ tr t -> getattr m "cyc_o" = 1.

Lemma all_requests_set (t i : nat) :
  (i < n)%nat ->
  Z.testbit (Arbiter_request (tr t)) (Z.of_nat i) = true.
Proof.
  intros Hi.
  destruct (tr t !! i) as [m|] eqn:Hm.
  - rewrite (testbit_Arbiter_request _ i m); [|
      apply Forall_forall; intros x Hx; rewrite (tr_requesting t x Hx);
      vm_compute; split; congruence | exact Hm].
    rewrite (tr_requesting t m); [reflexivity|].
    apply list_elem_of_lookup. eauto.
  - apply lookup_ge_None in Hm. rewrite tr_length in Hm. lia.
Qed.

Lemma rr_grant_next (t : nat) :
  rr_grant n p0 tr t = Some ((rr_pointer n p0 tr t + 1) mod n)%nat.
Proof.
  unfold rr_grant. apply rr_evaluate_next; [exact n_pos|].
  intros i. apply all_requests_set.
Qed.

Lemma rr_pointer_S (t : nat) :
  rr_pointer n p0 tr (S t) = ((rr_pointer n p0 tr t + 1) mod n)%nat.
Proof.
  cbn [rr_pointer]. fold (rr_grant n p0 tr t).
  by rewrite rr_grant_next.
Qed.

(** With all requests held the grant rotates. *)
Lemma rr_grant_rotates (t k : nat) :
  rr_grant n p0 tr (t + k)
  = Some ((rr_pointer n p0 tr t + 1 + k) mod n)%nat.
Proof.
  rewrite rr_grant_next. f_equal.
  induction k as [|k IH].
  - by rewrite !Nat.add_0_r.
  - replace (t + S k)%nat with (S (t + k)) by lia.
    rewrite rr_pointer_S, IH, Nat.Div0.add_mod_idemp_l. f_equal. lia.
Qed.

Lemma rotation_reaches (q i : nat) :
  (q < n)%nat -> (i < n)%nat ->
  exists k, (k < n)%nat /\ ((q + k) mod n = i)%nat.
Proof.
  intros Hq Hi. destruct (le_lt_dec q i) as [Hle|Hlt].
  - exists (i - q)%nat. split; [lia|].
    replace (q + (i - q))%nat with i by lia. by apply Nat.mod_small.
  - exists (i + n - q)%nat. split; [lia|].
    replace (q + (i + n - q))%nat with (i + 1 * n)%nat by lia.
    rewrite Nat.Div0.mod_add. by apply Nat.mod_small.
Qed.

Lemma every_initiator_granted (t i : nat) :
  (i < n)%nat ->
  exists k, (k < n)%nat /\ rr_grant n p0 tr (t + k) = Some i.
Proof.
  intros Hi.
  destruct (rotation_reaches ((rr_pointer n p0 tr t + 1) mod n) i)
    as (k & Hk & Hmod); [apply Nat.mod_upper_bound; lia | exact Hi |].
  exists k. split; [exact Hk|].
  rewrite rr_grant_rotates. f_equal.
  by rewrite <- Nat.Div0.add_mod_idemp_l.
Qed.
End Fairness.

(** C9. When each of the [n] initiators holds [cyc_o] asserted at every
    cycle, and the request vector is [Cat] of their [cyc_o], every
    initiator is granted at least once within any [n] consecutive cycles
    [t], ..., [t + n - 1]. *)
Theorem round_robin_fairness (n p0 : nat) (tr : nat -> list port) :
  (0 < n)%nat ->
  (forall t, length (tr t) = n) ->
  (forall t m, m ∈ tr t -> getattr m "cyc_o" = 1) ->
  forall t i, (i < n)%nat ->
    exists k, (k < n)%nat /\ rr_grant n p0 tr (t + k) = Some i.
Proof.
  intros Hn Hlen Hreq t i Hi.
  exact (every_initiator_granted n p0 tr Hn Hlen Hreq t i Hi).
Qed.

Lemma all_requesting_holds (t : nat) (m : port) :
  m ∈ all_requesting t -> getattr m "cyc_o" = 1.
Proof.
  unfold all_requesting. intros Hm.
  apply list_elem_of_fmap in Hm as (m0 & -> & _). apply getattr_insert.
Qed.

Lemma round_robin_fairness_witness :
  exists k, (k < 3)%nat /\ rr_grant 3 0 all_requesting (4 + k) = Some 1%nat.
Proof.
  apply (round_robin_fairness 3 0 all_requesting);
    [lia | reflexivity | apply all_requesting_holds | lia].
Defined.

(** ** Construction of a decoder *)

Lemma foldl_max_le (x : Z) (r : list Z) :
  x <= foldl Z.max x r /\ (forall y, y ∈ r -> y <= foldl Z.max x r).
Proof.
  revert x. induction r as [|z r IH]; intros x; cbn [foldl].
  - split; [lia|]. intros y Hy. by apply elem_of_nil in Hy.
  - destruct (IH (Z.max x z)) as [H1 H2]. split; [lia|].
    intros y Hy. apply elem_of_cons in Hy as [->|Hy]; [lia|by apply H2].
Qed.

Lemma foldl_max_elem (x : Z) (r : list Z) : foldl Z.max x r ∈ x :: r.
Proof.
  revert x. induction r as [|z r IH]; intros x; cbn [foldl].
  - apply elem_of_cons. by left.
  - specialize (IH (Z.max x z)).
    apply elem_of_cons in IH as [IH|IH].
    + rewrite IH. destruct (Z.max_spec x z) as [[_ ->]|[_ ->]].
      * apply elem_of_cons. right. apply elem_of_cons. by left.
      * apply elem_of_cons. by left.
    + apply elem_of_cons. right. apply elem_of_cons. by right.
Qed.

(** [max] returns an upper bound that is an element of the list. *)
Lemma max_spec (l : list Z) (m : Z) :
  max l = inr m -> m ∈ l /\ (forall y, y ∈ l -> y <= m).
Proof.
  destruct l as [|x r]; [discriminate|]. intros [= <-]. split.
  - apply foldl_max_elem.
  - intros y Hy. destruct (foldl_max_le x r) as [H1 H2].
    apply elem_of_cons in Hy as [->|Hy]; [exact H1 | by apply H2].
Qed.

Lemma max_snoc (l : list Z) (m e : Z) :
  max l = inr m -> max (l ++ [e]) = inr (Z.max m e).
Proof.
  destruct l as [|x r]; [discriminate|]. intros [= <-].
  cbn [app max]. by rewrite foldl_app.
Qed.

Section ConstructionFacts.
Variable bits_for : address -> Z.

Lemma Decoder_init_inr (slaves : list address) (offset : Z)
    (register : bool) (d : Decoder) :
  Decoder_init bits_for slaves offset register = inr d ->
  exists maxbits,
    max (bits_for <$> slaves) = inr maxbits /\
    d = mkDecoder slaves offset register (mkconst maxbits <$> slaves).
Proof.
  unfold Decoder_init.
  destruct (max (bits_for <$> slaves)) as [e|maxbits]; [discriminate|].
  intros [= <-]. by exists maxbits.
Qed.

Lemma Decoder_init_nonempty (slaves : list address) (offset : Z)
    (register : bool) :
  slaves <> [] ->
  exists maxbits,
    Decoder_init bits_for slaves offset register
    = inr (mkDecoder slaves offset register (mkconst maxbits <$> slaves)).
Proof.
  intros Hne. destruct slaves as [|x r]; [contradiction|].
  by eexists.
Qed.
End ConstructionFacts.

(** C10. A decoder constructed from a table gives every pattern written
    as a plain integer the width [maxbits], the maximum of [bits_for] over
    the whole table; the comparator of such an entry therefore looks at the
    [maxbits] address bits below [hi], whatever the value of the entry, and
    appending an entry wider than [maxbits] gives the integer patterns the
    width of that entry. *)
Theorem integer_patterns_widened (bits_for : address -> Z)
    (slaves : list address) (offset : Z) (register : bool) (d : Decoder) :
  Decoder_init bits_for slaves offset register = inr d ->
  exists maxbits,
    (exists x, x ∈ slaves /\ bits_for x = maxbits) /\
    (forall x, x ∈ slaves -> bits_for x <= maxbits) /\
    (forall i v, slaves !! i = Some (Int v) ->
       addresses d !! i = Some (mkConstant v (mkBV maxbits)) /\
       forall master,
         Z.testbit (_slave_sel d master) (Z.of_nat i)
         = (Slice (getattr master "adr_o") (hi d - maxbits) (hi d) =? v)) /\
    (forall e d',
       maxbits < bits_for e ->
       Decoder_init bits_for (slaves ++ [e]) offset register = inr d' ->
       forall i v, slaves !! i = Some (Int v) ->
         addresses d' !! i = Some (mkConstant v (mkBV (bits_for e)))).
Proof.
  intros Hd. apply Decoder_init_inr in Hd as (maxbits & Hmax & ->).
  exists maxbits. destruct (max_spec _ _ Hmax) as [Hin Hle].
  split; [|split; [|split]].
  - apply list_elem_of_fmap in Hin as (x & -> & Hx). by exists x.
  - intros x Hx. apply Hle. apply list_elem_of_fmap. by exists x.
  - intros i v Hi.
    assert (Ha : addresses
                   (mkDecoder slaves offset register
                      (mkconst maxbits <$> slaves)) !! i
                 = Some (mkConstant v (mkBV maxbits)))
      by (cbn [addresses]; by rewrite list_lookup_fmap, Hi).
    split; [exact Ha|]. intros master.
    by rewrite testbit_slave_sel, Ha.
  - intros e d' Hwide Hd' i v Hi.
    apply Decoder_init_inr in Hd' as (maxbits' & Hmax' & ->).
    rewrite fmap_app in Hmax'. cbn [fmap list_fmap] in Hmax'.
    rewrite (max_snoc _ _ _ Hmax) in Hmax'. injection Hmax' as <-.
    cbn [addresses]. rewrite list_lookup_fmap.
    rewrite lookup_app_l by (apply lookup_lt_is_Some; eauto).
    rewrite Hi. cbn [fmap option_fmap option_map mkconst].
    by rewrite Z.max_r by lia.
Qed.

Lemma integer_patterns_widened_witness :
  exists maxbits,
    (exists x, x ∈ [Int 1; Int 0] /\ bits_for_digits x = maxbits) /\
    (forall x, x ∈ [Int 1; Int 0] -> bits_for_digits x <= maxbits) /\
    (forall i v, [Int 1; Int 0] !! i = Some (Int v) ->
       addresses (mkDecoder [Int 1; Int 0] 0 false
                    [mkConstant 1 (mkBV 1); mkConstant 0 (mkBV 1)]) !! i
       = Some (mkConstant v (mkBV maxbits)) /\
       forall master,
         Z.testbit
           (_slave_sel (mkDecoder [Int 1; Int 0] 0 false
                          [mkConstant 1 (mkBV 1); mkConstant 0 (mkBV 1)])
                       master) (Z.of_nat i)
         = (Slice (getattr master "adr_o")
                  (hi (mkDecoder [Int 1; Int 0] 0 false
                         [mkConstant 1 (mkBV 1); mkConstant 0 (mkBV 1)])
                   - maxbits)
                  (hi (mkDecoder [Int 1; Int 0] 0 false
                         [mkConstant 1 (mkBV 1); mkConstant 0 (mkBV 1)]))
            =? v)) /\
    (forall e d',
       maxbits < bits_for_digits e ->
       Decoder_init bits_for_digits ([Int 1; Int 0] ++ [e]) 0 false
       = inr d' ->
       forall i v, [Int 1; Int 0] !! i = Some (Int v) ->
         addresses d' !! i = Some (mkConstant v (mkBV (bits_for_digits e)))).
Proof.
  exact (integer_patterns_widened bits_for_digits [Int 1; Int 0] 0 false
           _ eq_refl).
Defined.

(** The decode window of an integer pattern before and after a wider
    entry is appended: with the table [1; 0] the entry [1] answers the
    address [2^31]; with the table [1; 0; 4] it does not. *)
Example wider_entry_moves_window :
  match Decoder_init bits_for_digits [Int 1; Int 0] 0 false with
  | inr d => Some (_slave_sel d (alternating 1))
  | inl _ => None
  end = Some 1 /\
  match Decoder_init bits_for_digits [Int 1; Int 0; Int 4] 0 false with
  | inr d => Some (_slave_sel d (alternating 1))
  | inl _ => None
  end = Some 4.
Proof. split; by vm_compute. Qed.

(** C8, as amended.  [Decoder.__init__] validates nothing about overlap:
    it raises only on an empty table (from [max]); for every non-empty
    table, overlapping or not, it returns the decoder with one resolved
    address per entry, and on an address matched by two entries the select
    bits of both are set. *)
Theorem construction_without_validation (bits_for : address -> Z)
    (table : list address) (offset : Z) (register : bool) :
  (table = [] ->
   Decoder_init bits_for table offset register = inl ValueError) /\
  (table <> [] ->
   exists d,
     Decoder_init bits_for table offset register = inr d /\
     slaves d = table /\
     length (addresses d) = length table /\
     forall master i j a b,
       addresses d !! i = Some a -> addresses d !! j = Some b ->
       matches d (getattr master "adr_o") a = true ->
       matches d (getattr master "adr_o") b = true ->
       Z.testbit (_slave_sel d master) (Z.of_nat i) = true /\
       Z.testbit (_slave_sel d master) (Z.of_nat j) = true).
Proof.
  split; [by intros ->|]. intros Hne.
  destruct (Decoder_init_nonempty bits_for table offset register Hne)
    as [maxbits Hd].
  eexists. split; [exact Hd|]. split; [reflexivity|].
  split; [cbn [addresses]; apply length_fmap|].
  intros master i j a b Ha Hb Hma Hmb.
  rewrite !testbit_slave_sel, Ha, Hb. by split.
Qed.

Lemma construction_without_validation_witness :
  exists d,
    Decoder_init bits_for_digits overlapping_table 0 false = inr d /\
    slaves d = overlapping_table /\
    length (addresses d) = length overlapping_table /\
    forall master i j a b,
      addresses d !! i = Some a -> addresses d !! j = Some b ->
      matches d (getattr master "adr_o") a = true ->
      matches d (getattr master "adr_o") b = true ->
      Z.testbit (_slave_sel d master) (Z.of_nat i) = true /\
      Z.testbit (_slave_sel d master) (Z.of_nat j) = true.
Proof.
  apply (proj2 (construction_without_validation bits_for_digits
                  overlapping_table 0 false)).
  discriminate.
Defined.

(** C8, as stated, fails: a table whose two patterns both match the
    addresses with high bit 0 is accepted by the constructor, and at the
    address [0x00000010] both select bits are set. *)
Lemma construction_rejection_counterexample :
  exists d,
    Decoder_init bits_for_digits overlapping_table 0 false = inr d /\
    addresses d = [mkConstant 0 (mkBV 1); mkConstant 0 (mkBV 1)] /\
    Forall (fun a => matches d 16 a = true) (addresses d) /\
    getattr (alternating 0) "adr_o" = 16 /\
    _slave_sel d (alternating 0) = 3.
Proof.
  eexists. split; [reflexivity|]. split; [reflexivity|].
  split; [by repeat constructor|]. split; by vm_compute.
Qed.

(** * Further properties of the interconnect *)

(** ** The request path of the decoder *)

Lemma Decoder_slaves_lookup (d : Decoder) (master : port) (ss : list port)
    (j : nat) :
  Decoder_slaves d master ss !! j
  = (fun s =>
       <["cyc_i" := Z.land (getattr master "cyc_o")
                           (bit (_slave_sel d master) j)]>
         (<["bte_i" := getattr master "bte_o"]>
            (<["cti_i" := getattr master "cti_o"]>
               (<["we_i" := getattr master "we_o"]>
                  (<["stb_i" := getattr master "stb_o"]>
                     (<["sel_i" := getattr master "sel_o"]>
                        (<["dat_i" := getattr master "dat_o"]>
                           (<["adr_i" := getattr master "adr_o"]> s))))))))
    <$> ss !! j.
Proof. unfold Decoder_slaves. by rewrite list_lookup_imap. Qed.

(** X1. Every target, selected or not, reads the address, write data, byte
    select, strobe, write enable, cycle type and burst type that the master
    drives, and the decoder leaves every signal of a target other than its
    eight inputs (in particular [ack_o], [dat_o], [err_o]) as it is. *)
Theorem decoder_fans_out_requests (d : Decoder) (master : port)
    (ss : list port) (j : nat) (s s' : port) :
  ss !! j = Some s ->
  Decoder_slaves d master ss !! j = Some s' ->
  Forall (fun name => getattr s' name.2 = getattr master name.1)
         [("adr_o", "adr_i"); ("dat_o", "dat_i"); ("sel_o", "sel_i");
          ("stb_o", "stb_i"); ("we_o", "we_i"); ("cti_o", "cti_i");
          ("bte_o", "bte_i")] /\
  (forall name, name ∉ slave_inputs -> getattr s' name = getattr s name).
Proof.
  intros Hs. rewrite Decoder_slaves_lookup, Hs. intros [= <-]. split.
  - repeat (constructor;
              [cbn [fst snd];
               repeat (rewrite getattr_insert_ne by discriminate);
               apply getattr_insert|]).
    constructor.
  - intros name Hname. unfold slave_inputs in Hname.
    rewrite !not_elem_of_cons in Hname.
    destruct Hname as (H1 & H2 & H3 & H4 & H5 & H6 & H7 & H8 & _).
    by rewrite !getattr_insert_ne by congruence.
Qed.

Lemma decoder_fans_out_requests_witness :
  exists s',
    Decoder_slaves (two_targets false) (alternating 1) first_answers
      !! 0%nat = Some s' /\
    getattr s' "adr_i" = 2 ^ 31 /\ getattr s' "ack_o" = 1.
Proof.
  destruct (Decoder_slaves (two_targets false) (alternating 1) first_answers
              !! 0%nat) as [s'|] eqn:E.
  - exists s'. split; [reflexivity|].
    destruct (decoder_fans_out_requests (two_targets false) (alternating 1)
                first_answers 0 _ s' eq_refl E) as [Hin Hout].
    split.
    + pose proof (Forall_lookup_1 _ _ 0%nat _ Hin eq_refl) as H.
      cbn [fst snd] in H. rewrite H. by vm_compute.
    + rewrite (Hout "ack_o") by compute_done. by vm_compute.
  - apply lookup_ge_None in E. rewrite Decoder_slaves_length in E.
    cbn in E. lia.
Defined.

(** X2. With non-overlapping patterns at most one target reads [cyc_i]
    asserted during a cycle, and none does while the master keeps [cyc_o]
    low. *)
Theorem at_most_one_target_enabled (d : Decoder) (master : port)
    (ss : list port) :
  non_overlapping d ->
  fits (bv_width true "adr") (getattr master "adr_o") ->
  (forall i j si sj,
     Decoder_slaves d master ss !! i = Some si ->
     Decoder_slaves d master ss !! j = Some sj ->
     getattr si "cyc_i" <> 0 -> getattr sj "cyc_i" <> 0 -> i = j) /\
  (getattr master "cyc_o" = 0 ->
   forall j sj, Decoder_slaves d master ss !! j = Some sj ->
                getattr sj "cyc_i" = 0).
Proof.
  intros Hno Hfit. split.
  - intros i j si sj Hi Hj.
    rewrite (Decoder_slaves_cyc_i _ _ _ _ _ Hi).
    rewrite (Decoder_slaves_cyc_i _ _ _ _ _ Hj).
    rewrite <- !testbit_slave_sel. intros Hci Hcj.
    apply (at_most_one_bit_slave_sel d master Hno Hfit).
    + destruct (Z.testbit (_slave_sel d master) (Z.of_nat i));
        [reflexivity|]. by rewrite land_bit_false in Hci.
    + destruct (Z.testbit (_slave_sel d master) (Z.of_nat j));
        [reflexivity|]. by rewrite land_bit_false in Hcj.
  - intros Hidle j sj Hj.
    rewrite (Decoder_slaves_cyc_i _ _ _ _ _ Hj), Hidle. apply Z.land_0_l.
Qed.

Lemma at_most_one_target_enabled_witness :
  exists s0 s1,
    Decoder_slaves (two_targets false) (alternating 0) first_answers
      !! 0%nat = Some s0 /\
    Decoder_slaves (two_targets false) (alternating 0) first_answers
      !! 1%nat = Some s1 /\
    getattr s0 "cyc_i" <> 0 /\ getattr s1 "cyc_i" = 0.
Proof.
  destruct (Decoder_slaves (two_targets false) (alternating 0) first_answers
              !! 0%nat) as [s0|] eqn:E0;
    [|apply lookup_ge_None in E0; rewrite Decoder_slaves_length in E0;
      cbn in E0; lia].
  destruct (Decoder_slaves (two_targets false) (alternating 0) first_answers
              !! 1%nat) as [s1|] eqn:E1;
    [|apply lookup_ge_None in E1; rewrite Decoder_slaves_length in E1;
      cbn in E1; lia].
  exists s0, s1. split; [reflexivity|]. split; [reflexivity|].
  assert (H0 : getattr s0 "cyc_i" <> 0).
  { rewrite (Decoder_slaves_cyc_i _ _ _ _ _ E0). by vm_compute. }
  split; [exact H0|].
  destruct (Z.eq_dec (getattr s1 "cyc_i") 0) as [Hz|Hnz]; [exact Hz|].
  pose proof (proj1 (at_most_one_target_enabled (two_targets false)
                       (alternating 0) first_answers
                       (two_targets_non_overlapping false)
                       (alternating_fits 0))
                    0%nat 1%nat s0 s1 E0 E1 H0 Hnz) as H.
  discriminate.
Defined.

(** ** The select vector *)

Lemma lt_pow2_of_high_bits (v : Z) (w : Z) :
  0 <= v -> 0 <= w ->
  (forall k, w <= k -> Z.testbit v k = false) ->
  v < 2 ^ w.
Proof.
  intros Hv Hw Hhigh.
  destruct (Z.eq_dec v 0) as [->|Hne]; [by apply Z.pow_pos_nonneg|].
  apply Z.log2_lt_pow2; [lia|].
  destruct (Z_lt_le_dec (Z.log2 v) w) as [Hlt|Hge]; [exact Hlt|].
  pose proof (Z.bit_log2 v ltac:(lia)) as Hb.
  rewrite (Hhigh _ Hge) in Hb. discriminate.
Qed.

Lemma foldr_lor_nonneg (l : list Z) :
  Forall (fun v => 0 <= v) l -> 0 <= foldr Z.lor 0 l.
Proof.
  induction 1 as [|v l Hv _ IH]; cbn [foldr]; [lia|].
  by apply Z.lor_nonneg.
Qed.

Lemma slave_sel_nonneg (d : Decoder) (master : port) :
  0 <= _slave_sel d master.
Proof.
  unfold _slave_sel. apply foldr_lor_nonneg, Forall_forall.
  intros v Hv. apply elem_of_lookup_imap_1 in Hv as (i & a & -> & _).
  apply Z.shiftl_nonneg. unfold comparator, eq_bit.
  by destruct (_ =? _).
Qed.

(** The select vector has one bit per entry of the table. *)
Lemma slave_sel_range (d : Decoder) (master : port) :
  fits (Z.of_nat (length (addresses d))) (_slave_sel d master).
Proof.
  split; [apply slave_sel_nonneg|].
  apply lt_pow2_of_high_bits; [apply slave_sel_nonneg | lia |].
  intros k Hk. rewrite <- (Z2Nat.id k) by lia.
  rewrite testbit_slave_sel, lookup_ge_None_2; [reflexivity | lia].
Qed.

(** X3. The select vector of a constructed decoder is a value of the
    width [ns = len(slaves)] with which [_slave_sel] and [_slave_sel_r] are
    declared: no comparator drives a bit outside the declared signal, at
    any cycle and in both modes. *)
Theorem select_fits_declared_width (bits_for : address -> Z)
    (table : list address) (off : Z) (registered : bool) (d : Decoder)
    (tr : nat -> port) (t : nat) :
  Decoder_init bits_for table off registered = inr d ->
  fits (Z.of_nat (length (slaves d))) (_slave_sel d (tr t)) /\
  fits (Z.of_nat (length (slaves d)))
       (_slave_sel_r d (Decoder_reg d reset tr t) (tr t)).
Proof.
  intros Hd. apply Decoder_init_inr in Hd as (maxbits & _ & ->).
  cbn [slaves].
  set (d := mkDecoder table off registered (mkconst maxbits <$> table)).
  assert (Hsel : forall m,
            fits (Z.of_nat (length table)) (_slave_sel d m)).
  { intros m. pose proof (slave_sel_range d m) as H.
    unfold d in H at 1. cbn [addresses] in H.
    by rewrite length_fmap in H. }
  split; [apply Hsel|].
  unfold _slave_sel_r. destruct (register d) eqn:Hreg; [|apply Hsel].
  destruct t as [|t]; cbn [Decoder_reg].
  - split; [reflexivity|]. apply Z.pow_pos_nonneg; lia.
  - unfold Decoder_sync. rewrite Hreg. apply Hsel.
Qed.

Lemma select_fits_declared_width_witness :
  exists d,
    Decoder_init bits_for_digits [Int 1; Int 0; Int 4] 0 true = inr d /\
    fits 3 (_slave_sel d (alternating 1)) /\
    fits 3 (_slave_sel_r d (Decoder_reg d reset alternating 1)
              (alternating 1)).
Proof.
  eexists. split; [reflexivity|].
  exact (select_fits_declared_width bits_for_digits [Int 1; Int 0; Int 4]
           0 true _ alternating 1 eq_refl).
Defined.

(** ** The read-data multiplexer *)

Lemma Replicate_mask (sel_r : Z) (i : nat) :
  Replicate 1 (bit sel_r i) (Z.to_nat (bv_width false "dat"))
  = if Z.testbit sel_r (Z.of_nat i) then Z.ones (bv_width false "dat")
    else 0.
Proof. by rewrite bit_spec, Replicate_bit. Qed.

(** The bits of the one-hot multiplexer. *)
Lemma testbit_datav (sel_r : Z) (ss : list port) (k : Z) :
  0 <= k ->
  Z.testbit (datav sel_r ss) k = true <->
  k < bv_width false "dat" /\
  exists t s, ss !! t = Some s /\
              Z.testbit sel_r (Z.of_nat t) = true /\
              Z.testbit (getattr s "dat_o") k = true.
Proof.
  intros Hk. unfold datav.
  rewrite (testbit_foldl_lor (fun v => v)), Z.bits_0. split.
  - intros [H|(t & v & Hv & Hbit)]; [discriminate|].
    rewrite list_lookup_imap in Hv.
    destruct (ss !! t) as [s|] eqn:Hs; [|discriminate].
    injection Hv as <-. rewrite Replicate_mask in Hbit.
    destruct (Z.testbit sel_r (Z.of_nat t)) eqn:Hsel;
      [|by rewrite Z.land_0_l, Z.bits_0 in Hbit].
    rewrite Z.land_spec, Z.testbit_ones_nonneg in Hbit by (by vm_compute).
    apply andb_true_iff in Hbit as [Hlt Hdat].
    apply Z.ltb_lt in Hlt. split; [exact Hlt|]. by exists t, s.
  - intros (Hlt & t & s & Hs & Hsel & Hdat). right.
    exists t, (Z.land (Z.ones (bv_width false "dat")) (getattr s "dat_o")).
    split.
    + rewrite list_lookup_imap, Hs. cbn [fmap option_fmap option_map].
      by rewrite Replicate_mask, Hsel.
    + rewrite Z.land_spec, Z.testbit_ones_nonneg by (by vm_compute).
      rewrite Hdat, andb_true_r. by apply Z.ltb_lt.
Qed.

(** X4. Bit [k] of the read data returned to the master is set exactly
    when [k] is one of the 32 data bits and some target whose select bit is
    set in [_slave_sel_r] drives bit [k] of its [dat_o]: an AND-OR
    multiplexer, which ORs the data of all selected targets and masks
    whatever a target drives beyond the data width. *)
Theorem datav_bits (sel_r : Z) (ss : list port) (k : Z) :
  0 <= k ->
  Z.testbit (datav sel_r ss) k = true <->
  k < bv_width false "dat" /\
  exists t s, ss !! t = Some s /\
              Z.testbit sel_r (Z.of_nat t) = true /\
              Z.testbit (getattr s "dat_o") k = true.
Proof. exact (testbit_datav sel_r ss k). Qed.

Lemma datav_bits_witness :
  Z.testbit (datav 1 first_answers) 2 = true <->
  2 < bv_width false "dat" /\
  exists t s, first_answers !! t = Some s /\
              Z.testbit 1 (Z.of_nat t) = true /\
              Z.testbit (getattr s "dat_o") 2 = true.
Proof. apply (datav_bits 1 first_answers 2). lia. Defined.

Lemma foldl_lor_nonneg (l : list Z) (a0 : Z) :
  0 <= a0 -> Forall (fun v => 0 <= v) l -> 0 <= foldl Z.lor a0 l.
Proof.
  intros Ha Hl. revert a0 Ha.
  induction Hl as [|v l Hv _ IH]; intros a0 Ha; cbn [foldl]; [exact Ha|].
  apply IH. by apply Z.lor_nonneg.
Qed.

(** X5. The read data returned to the master is always a value of the 32
    bits of [dat_i], whatever the select vector holds and whatever the
    targets drive; and it is 0 when no select bit is set, so that in a
    combinational decoder an address that matches no entry reads 0. *)
Theorem read_data_in_range (d : Decoder) (r : Z) (master : port)
    (ss : list port) :
  fits (bv_width false "dat")
       (getattr (Decoder_master d r master ss) "dat_i") /\
  (register d = false ->
   Forall (fun a => matches d (getattr master "adr_o") a = false)
          (addresses d) ->
   _slave_sel d master = 0 /\
   getattr (Decoder_master d r master ss) "dat_i" = 0).
Proof.
  rewrite Decoder_master_dat_i.
  assert (Hnn : forall sel_r, 0 <= datav sel_r ss).
  { intros sel_r. unfold datav. apply foldl_lor_nonneg; [lia|].
    apply Forall_forall. intros v Hv.
    apply elem_of_lookup_imap_1 in Hv as (i & s & -> & _).
    rewrite Replicate_mask. apply Z.land_nonneg. left.
    by destruct (Z.testbit sel_r (Z.of_nat i)). }
  split.
  - split; [apply Hnn|].
    apply lt_pow2_of_high_bits; [apply Hnn | by vm_compute |].
    intros k Hk.
    destruct (Z.testbit (datav (_slave_sel_r d r master) ss) k) eqn:E;
      [|reflexivity].
    apply testbit_datav in E as [Hlt _]; [lia|].
    assert (0 <= bv_width false "dat") by (by vm_compute). lia.
  - intros Hreg Hnone.
    assert (Hsel : _slave_sel d master = 0).
    { apply Z.bits_inj'. intros k Hk. rewrite Z.bits_0.
      rewrite <- (Z2Nat.id k) by lia. rewrite testbit_slave_sel.
      destruct (addresses d !! Z.to_nat k) as [a|] eqn:Ha; [|reflexivity].
      rewrite Forall_lookup in Hnone. exact (Hnone _ a Ha). }
    split; [exact Hsel|].
    unfold _slave_sel_r. rewrite Hreg, Hsel.
    apply Z.bits_inj'. intros k Hk. rewrite Z.bits_0.
    destruct (Z.testbit (datav 0 ss) k) eqn:E; [|reflexivity].
    apply testbit_datav in E as (_ & t & s & _ & Hbit & _); [|exact Hk].
    by rewrite Z.bits_0 in Hbit.
Qed.

Lemma read_data_in_range_witness :
  _slave_sel upper_half_only (alternating 0) = 0 /\
  getattr (Decoder_master upper_half_only reset (alternating 0)
             first_answers) "dat_i" = 0.
Proof.
  apply (proj2 (read_data_in_range upper_half_only reset (alternating 0)
                  first_answers)).
  - reflexivity.
  - repeat constructor.
Defined.

(** ** The decoded window *)

Lemma Slice_ext (v v' lo hi : Z) :
  0 <= lo <= hi ->
  (forall k, lo <= k < hi -> Z.testbit v k = Z.testbit v' k) ->
  Slice v lo hi = Slice v' lo hi.
Proof.
  intros Hlo Hbits. apply Z.bits_inj'. intros k Hk.
  rewrite !testbit_Slice by lia.
  destruct (Z.ltb_spec k (hi - lo)) as [Hlt|Hge];
    [|by rewrite !andb_false_r].
  rewrite !andb_true_r. apply Hbits. lia.
Qed.

(** X6. Only the address bits inside the windows of the patterns are
    decoded: two addresses that agree on the bits from [lo] up to
    [hi = 32 - offset], where [lo] is at or below the low end of every
    pattern's window, select the same targets.  The [offset] high-order
    bits and the bits below the widest pattern never influence the
    selection. *)
Theorem select_depends_on_window (d : Decoder) (master master' : port)
    (lo : Z) :
  0 <= lo ->
  Forall (fun a => 0 <= width (bv a) /\ lo <= hi d - width (bv a))
         (addresses d) ->
  (forall k, lo <= k < hi d ->
     Z.testbit (getattr master "adr_o") k
     = Z.testbit (getattr master' "adr_o") k) ->
  _slave_sel d master = _slave_sel d master'.
Proof.
  intros Hlo Hwin Hbits. unfold _slave_sel. f_equal.
  apply imap_ext. intros i a Ha. f_equal. unfold comparator. f_equal.
  rewrite Forall_lookup in Hwin. destruct (Hwin i a Ha) as [Hw Hl].
  apply Slice_ext; [lia|]. intros k Hk. apply Hbits. lia.
Qed.

Lemma select_depends_on_window_witness :
  _slave_sel (two_targets false) (alternating 2)
  = _slave_sel (two_targets false) (<["adr_o" := 2 ^ 30 + 77]> Master).
Proof.
  apply (select_depends_on_window (two_targets false) _ _ 31);
    [lia | repeat constructor; by vm_compute |].
  intros k Hk. change (hi (two_targets false)) with 32 in Hk.
  assert (k = 31) as -> by lia. reflexivity.
Defined.

(** ** More on the construction of a decoder *)

(** X7. A constructed decoder keeps the table, the offset and the mode it
    was given, resolves exactly one address per entry, and leaves every
    entry given as a [Constant] as it is, with its own width, whatever the
    widths of the other entries. *)
Theorem construction_keeps_constants (bits_for : address -> Z)
    (table : list address) (off : Z) (registered : bool) (d : Decoder) :
  Decoder_init bits_for table off registered = inr d ->
  slaves d = table /\ offset d = off /\ register d = registered /\
  length (addresses d) = length table /\
  (forall i c, table !! i = Some (Const c) -> addresses d !! i = Some c).
Proof.
  intros Hd. apply Decoder_init_inr in Hd as (maxbits & _ & ->).
  cbn [slaves offset register addresses].
  repeat split; [apply length_fmap|].
  intros i c Hi. by rewrite list_lookup_fmap, Hi.
Qed.

Lemma construction_keeps_constants_witness :
  exists d,
    Decoder_init bits_for_digits
      [Int 5; Const (mkConstant 1 (mkBV 1))] 4 true = inr d /\
    addresses d !! 1%nat = Some (mkConstant 1 (mkBV 1)).
Proof.
  eexists. split; [reflexivity|].
  exact (proj2 (proj2 (proj2 (proj2
           (construction_keeps_constants bits_for_digits
              [Int 5; Const (mkConstant 1 (mkBV 1))] 4 true _ eq_refl))))
           1%nat _ eq_refl).
Defined.

Lemma fits_mono (w w' v : Z) : fits w v -> w <= w' -> fits w' v.
Proof.
  intros [Hlo Hhi] Hw. split; [exact Hlo|].
  destruct (Z_lt_le_dec w 0) as [Hneg|Hnn].
  - rewrite Z.pow_neg_r in Hhi by lia. lia.
  - eapply Z.lt_le_trans; [exact Hhi|]. apply Z.pow_le_mono_r; lia.
Qed.

(** X8. Widening never truncates: when [bits_for] gives every
    non-negative integer a width that holds it, each non-negative integer
    pattern of a constructed decoder is a value of the width it is resolved
    to. *)
Theorem widened_integers_fit (bits_for : address -> Z)
    (table : list address) (off : Z) (registered : bool) (d : Decoder)
    (i : nat) (v : Z) :
  (forall x, 0 <= x -> fits (bits_for (Int x)) x) ->
  Decoder_init bits_for table off registered = inr d ->
  table !! i = Some (Int v) ->
  0 <= v ->
  exists a, addresses d !! i = Some a /\ n a = v /\
            fits (width (bv a)) (n a).
Proof.
  intros Hbits Hd Hi Hv.
  apply Decoder_init_inr in Hd as (maxbits & Hmax & ->).
  exists (mkConstant v (mkBV maxbits)). cbn [addresses n bv width].
  split; [by rewrite list_lookup_fmap, Hi|]. split; [reflexivity|].
  apply (fits_mono (bits_for (Int v))); [by apply Hbits|].
  apply (proj2 (max_spec _ _ Hmax)).
  apply list_elem_of_fmap. exists (Int v). split; [reflexivity|].
  apply list_elem_of_lookup. eauto.
Qed.

Lemma bit_length_fits (x : Z) : 0 <= x -> fits (bit_length x) x.
Proof.
  intros Hx. unfold bit_length. split; [exact Hx|].
  destruct (Z.eq_dec x 0) as [->|Hne]; [reflexivity|].
  pose proof (Z.log2_nonneg x). rewrite Z.max_r by lia.
  apply (Z.log2_spec x). lia.
Qed.

Lemma widened_integers_fit_witness :
  exists d,
    Decoder_init bits_for_digits [Int 1; Int 0; Int 4] 0 false = inr d /\
    exists a, addresses d !! 0%nat = Some a /\ n a = 1 /\
              fits (width (bv a)) (n a).
Proof.
  eexists. split; [reflexivity|].
  exact (widened_integers_fit bits_for_digits [Int 1; Int 0; Int 4] 0 false
           _ 0 1 bit_length_fits eq_refl eq_refl ltac:(lia)).
Defined.

(** ** More on the arbiter *)

(** X9. Every initiator, granted or not, reads on [dat_i] the read data of
    the shared port (only [ack_i] and [err_i] are gated by the grant), and
    the arbiter leaves every other signal of an initiator as the initiator
    drives it. *)
Theorem arbiter_broadcasts_read_data (grant : Z) (masters : list port)
    (target : port) (i : nat) (m m' : port) :
  masters !! i = Some m ->
  Arbiter_masters grant masters target !! i = Some m' ->
  getattr m' "dat_i" = getattr target "dat_i" /\
  (forall name, name ∉ master_inputs -> getattr m' name = getattr m name).
Proof.
  intros Hm. rewrite Arbiter_masters_lookup, Hm. intros [= <-]. split.
  - rewrite !getattr_insert_ne by discriminate. apply getattr_insert.
  - intros name Hname. unfold master_inputs in Hname.
    rewrite !not_elem_of_cons in Hname.
    destruct Hname as (H1 & H2 & H3 & _).
    by rewrite !getattr_insert_ne by congruence.
Qed.

Lemma arbiter_broadcasts_read_data_witness :
  exists m',
    Arbiter_masters 0 three_masters acked !! 2%nat = Some m' /\
    getattr m' "dat_i" = getattr acked "dat_i" /\
    getattr m' "adr_o" = 2 ^ 31 + 4.
Proof.
  destruct (Arbiter_masters 0 three_masters acked !! 2%nat) as [m'|] eqn:E.
  - exists m'. split; [reflexivity|].
    destruct (arbiter_broadcasts_read_data 0 three_masters acked 2 _ m'
                eq_refl E) as [Hdat Hrest].
    split; [exact Hdat|].
    rewrite (Hrest "adr_o") by compute_done. by vm_compute.
  - apply lookup_ge_None in E. rewrite Arbiter_masters_length in E.
    cbn in E. lia.
Defined.

Lemma Arbiter_request_cons (m : port) (masters : list port) :
  fits (bv_width true "cyc") (getattr m "cyc_o") ->
  0 <= Arbiter_request masters ->
  Arbiter_request (m :: masters)
  = getattr m "cyc_o" + 2 * Arbiter_request masters.
Proof.
  intros Hm Hnn. unfold Arbiter_request in *. rewrite fmap_cons.
  cbn [Cat]. change (bv_width true "cyc") with 1 in *.
  destruct (Cat _) as [|p|p]; [| |lia];
    destruct (fits_1 _ Hm) as [-> | ->]; reflexivity.
Qed.

(** X10. The request vector is a value of the [n] bits of [rr.request],
    [n] being the number of initiators, and it is 0 exactly when no
    initiator asserts [cyc_o]. *)
Theorem request_vector_range (masters : list port) :
  Forall (fun m => fits (bv_width true "cyc") (getattr m "cyc_o")) masters ->
  fits (Z.of_nat (length masters)) (Arbiter_request masters) /\
  (Arbiter_request masters = 0 <->
   Forall (fun m => getattr m "cyc_o" = 0) masters).
Proof.
  induction 1 as [|m masters Hm Hms [[Hlo Hhi] Hzero]].
  - split; [by vm_compute|]. split; [constructor|reflexivity].
  - rewrite (Arbiter_request_cons m masters Hm Hlo).
    change (bv_width true "cyc") with 1 in Hm.
    pose proof (fits_1 _ Hm) as Hbit. split.
    + unfold fits.
      replace (Z.of_nat (length (m :: masters)))
        with (Z.succ (Z.of_nat (length masters))) by (cbn [length]; lia).
      rewrite Z.pow_succ_r by lia. lia.
    + rewrite Forall_cons, <- Hzero. lia.
Qed.

Lemma request_vector_range_witness :
  fits 3 (Arbiter_request three_masters) /\
  (Arbiter_request three_masters = 0 <->
   Forall (fun m => getattr m "cyc_o" = 0) three_masters).
Proof.
  apply (request_vector_range three_masters).
  repeat constructor; by vm_compute.
Defined.

(** ** Composition in the shared interconnect *)

(** An OR-reduction of single bits is a single bit, set exactly when one
    of them is. *)
Lemma or_reduce_bits {A} (f : A -> Z) (l : list A) (a0 : Z) :
  fits 1 a0 -> Forall (fun s => fits 1 (f s)) l ->
  fits 1 (foldl (fun acc s => Z.lor acc (f s)) a0 l) /\
  (foldl (fun acc s => Z.lor acc (f s)) a0 l = 1 <->
   a0 = 1 \/ exists k s, l !! k = Some s /\ f s = 1).
Proof.
  intros Ha Hl. revert a0 Ha.
  induction Hl as [|x l Hx _ IH]; intros a0 Ha; cbn [foldl].
  - split; [exact Ha|]. split; [by left|].
    intros [H|(k & s & Hk & _)]; [exact H|discriminate].
  - assert (Hor : fits 1 (Z.lor a0 (f x)) /\
                  (Z.lor a0 (f x) = 1 <-> a0 = 1 \/ f x = 1)).
    { destruct (fits_1 _ Ha) as [-> | ->], (fits_1 _ Hx) as [-> | ->];
        rewrite ?Z.lor_0_l, ?Z.lor_0_r, ?Z.lor_diag;
        (split; [by vm_compute | lia]). }
    destruct Hor as [Hfit Hone].
    destruct (IH _ Hfit) as [IH1 IH2]. split; [exact IH1|].
    rewrite IH2, Hone. split.
    + intros [[H|H]|(k & s & Hk & Hs)]; [by left| |].
      * right. by exists 0%nat, x.
      * right. by exists (S k), s.
    + intros [H|(k & s & Hk & Hs)]; [by left; left|].
      destruct k as [|k]; cbn in Hk.
      * injection Hk as ->. by left; right.
      * right. by exists k, s.
Qed.

(** X11. In the interconnect the acknowledge returned to the initiators
    does not pass through the address decode: whatever the address and the
    select vectors, initiator [i] reads [ack_i = 1] exactly when it holds
    the grant and some target, selected or not, asserts [ack_o]; likewise
    for [err_i] and [err_o]. *)
Theorem interconnect_acknowledge (d : Decoder) (r0 : Z) (tr : nat -> cycle)
    (t i : nat) (m' : port) :
  Forall (fun s => fits (bv_width false "ack") (getattr s "ack_o") /\
                   fits (bv_width false "err") (getattr s "err_o"))
         (c_slaves (tr t)) ->
  Interconnect_masters d r0 tr t !! i = Some m' ->
  (getattr m' "ack_i" = 1 <->
   c_grant (tr t) = Z.of_nat i /\
   exists k s, c_slaves (tr t) !! k = Some s /\ getattr s "ack_o" = 1) /\
  (getattr m' "err_i" = 1 <->
   c_grant (tr t) = Z.of_nat i /\
   exists k s, c_slaves (tr t) !! k = Some s /\ getattr s "err_o" = 1).
Proof.
  intros Hss. rewrite Interconnect_masters_eq, Arbiter_masters_lookup.
  destruct (c_masters (tr t) !! i) as [m|]; [|discriminate].
  intros [= <-].
  rewrite getattr_insert_ne, !getattr_insert by discriminate.
  rewrite Decoder_master_ack_i, Decoder_master_err_i.
  change (bv_width false "ack") with 1 in Hss.
  change (bv_width false "err") with 1 in Hss.
  apply Forall_and in Hss as [Hack Herr].
  assert (H0 : fits 1 0) by (by vm_compute).
  destruct (or_reduce_bits (fun s => getattr s "ack_o") _ 0 H0 Hack)
    as [Hafit Haone].
  destruct (or_reduce_bits (fun s => getattr s "err_o") _ 0 H0 Herr)
    as [Hefit Heone].
  fold (ackv (c_slaves (tr t))) in Hafit, Haone.
  fold (errv (c_slaves (tr t))) in Hefit, Heone.
  unfold eq_bit.
  destruct (Z.eqb_spec (c_grant (tr t)) (Z.of_nat i)) as [Hg|Hg].
  - rewrite !land_bit_true by assumption. rewrite Haone, Heone.
    split; (split; [intros [H|H]; [discriminate|by split]
                   | intros [_ H]; by right]).
  - rewrite !land_bit_false. split; (split; [discriminate|by intros [? _]]).
Qed.

Lemma interconnect_acknowledge_witness :
  exists m',
    Interconnect_masters (two_targets true) reset changing_data 0 !! 0%nat
    = Some m' /\
    (getattr m' "ack_i" = 1 <->
     c_grant (changing_data 0) = Z.of_nat 0 /\
     exists k s, c_slaves (changing_data 0) !! k = Some s /\
                 getattr s "ack_o" = 1).
Proof.
  destruct (Interconnect_masters (two_targets true) reset changing_data 0
              !! 0%nat) as [m'|] eqn:E.
  - exists m'. split; [reflexivity|].
    apply (interconnect_acknowledge (two_targets true) reset changing_data
             0 0 m'); [|exact E].
    repeat constructor; by vm_compute.
  - apply lookup_ge_None in E.
    rewrite Interconnect_masters_eq, Arbiter_masters_length in E.
    cbn in E. lia.
Defined.

Lemma Interconnect_slaves_eq (d : Decoder) (r0 : Z) (tr : nat -> cycle)
    (t : nat) :
  Interconnect_slaves d r0 tr t
  = Decoder_slaves d (shared_m2s (c_grant (tr t)) (c_masters (tr t)))
      (c_slaves (tr t)).
Proof. reflexivity. Qed.

(** X12. In the interconnect every target reads the address and the write
    data of the initiator that holds the grant, and target [j] reads
    [cyc_i] as the [cyc_o] of that initiator gated by the comparator of
    entry [j] on that initiator's address: [cyc] goes through the arbiter's
    multiplexer like the other master-to-slave signals. *)
Theorem interconnect_request_path (d : Decoder) (r0 : Z)
    (tr : nat -> cycle) (t j : nat) (m s' : port) :
  0 <= c_grant (tr t) ->
  c_masters (tr t) !! Z.to_nat (c_grant (tr t)) = Some m ->
  Interconnect_slaves d r0 tr t !! j = Some s' ->
  getattr s' "adr_i" = getattr m "adr_o" /\
  getattr s' "dat_i" = getattr m "dat_o" /\
  getattr s' "cyc_i"
  = Z.land (getattr m "cyc_o")
           (Z.b2z (from_option (matches d (getattr m "adr_o")) false
                               (addresses d !! j))).
Proof.
  intros Hg Hm. rewrite Interconnect_slaves_eq. intros Hs'.
  set (shr := shared_m2s (c_grant (tr t)) (c_masters (tr t))) in *.
  assert (Hshr : forall name, name ∈ Arbiter_m2s_names ->
                   getattr shr name = getattr m name)
    by (intros name; by apply Arbiter_target_granted).
  rewrite (Decoder_slaves_cyc_i _ _ _ _ _ Hs').
  rewrite !Hshr by (rewrite Arbiter_m2s_names_eq; compute_done).
  rewrite Decoder_slaves_lookup in Hs'.
  destruct (c_slaves (tr t) !! j) as [s|]; [|discriminate].
  injection Hs' as <-.
  rewrite !(getattr_insert_ne _ _ "adr_i"), getattr_insert by discriminate.
  rewrite !(getattr_insert_ne _ _ "dat_i"), getattr_insert by discriminate.
  rewrite !Hshr by (rewrite Arbiter_m2s_names_eq; compute_done).
  done.
Qed.

Lemma interconnect_request_path_witness :
  exists s',
    Interconnect_slaves (two_targets true) reset changing_data 0 !! 0%nat
    = Some s' /\
    getattr s' "adr_i" = 16 /\ getattr s' "dat_i" = 10 /\
    getattr s' "cyc_i" = 1.
Proof.
  destruct (Interconnect_slaves (two_targets true) reset changing_data 0
              !! 0%nat) as [s'|] eqn:E.
  - exists s'. split; [reflexivity|].
    destruct (interconnect_request_path (two_targets true) reset
                changing_data 0 0 _ s' ltac:(by vm_compute) eq_refl E)
      as (Hadr & Hdat & Hcyc).
    rewrite Hadr, Hdat, Hcyc. by vm_compute.
  - apply lookup_ge_None in E.
    rewrite Interconnect_slaves_eq, Decoder_slaves_length in E.
    cbn in E. lia.
Defined.

(** * The identify driver *)

Lemma read_fifo_flat_map (dwords : list Z) :
  read_fifo dwords = flat_map halves dwords.
Proof.
  unfold read_fifo.
  enough (H : forall data,
            foldl (fun data dword =>
                     (data ++ [Z.land dword 65535;
                               Z.land (Z.shiftr dword 16) 65535])%list)
                  data dwords
            = (data ++ flat_map halves dwords)%list) by apply (H []).
  induction dwords as [|dword dwords IH]; intros data; cbn [foldl flat_map].
  - by rewrite app_nil_r.
  - rewrite IH, <- app_assoc. reflexivity.
Qed.

Lemma flat_map_halves_lookup (dwords : list Z) (i : nat) (dword : Z) :
  dwords !! i = Some dword ->
  flat_map halves dwords !! (2 * i)%nat = Some (Z.land dword 65535) /\
  flat_map halves dwords !! (2 * i + 1)%nat
  = Some (Z.land (Z.shiftr dword 16) 65535).
Proof.
  revert i. induction dwords as [|x dwords IH]; intros i Hi; [discriminate|].
  destruct i as [|i]; cbn in Hi.
  - injection Hi as ->. by split.
  - destruct (IH i Hi) as [H1 H2].
    replace (2 * S i)%nat with (S (S (2 * i))) by lia.
    replace (S (S (2 * i)) + 1)%nat with (S (S (2 * i + 1))) by lia.
    by split.
Qed.

(** X13. [read_fifo] stores two words per dword read, low half first:
    the data has twice the length, every word is a 16-bit value, and the
    two words of a 32-bit dword recombine to it. *)
Theorem read_fifo_words (dwords : list Z) :
  length (read_fifo dwords) = (2 * length dwords)%nat /\
  Forall (fits 16) (read_fifo dwords) /\
  (forall i dword,
     dwords !! i = Some dword ->
     exists lsb msb,
       read_fifo dwords !! (2 * i)%nat = Some lsb /\
       read_fifo dwords !! (2 * i + 1)%nat = Some msb /\
       (fits 32 dword -> lsb + 2 ^ 16 * msb = dword)).
Proof.
  rewrite read_fifo_flat_map. split; [|split].
  - induction dwords as [|x dwords IH]; [reflexivity|].
    cbn [flat_map halves app length]. lia.
  - induction dwords as [|x dwords IH]; [constructor|].
    cbn [flat_map halves app].
    assert (Hlow : forall v, fits 16 (Z.land v 65535)).
    { intros v. change 65535 with (Z.ones 16).
      rewrite Z.land_ones by lia. apply Z.mod_pos_bound. lia. }
    repeat (constructor; [apply Hlow|]). exact IH.
  - intros i dword Hi.
    destruct (flat_map_halves_lookup dwords i dword Hi) as [H1 H2].
    eexists _, _. split; [exact H1|]. split; [exact H2|].
    intros [Hlo Hhi]. change 65535 with (Z.ones 16).
    rewrite !Z.land_ones, Z.shiftr_div_pow2 by lia.
    rewrite (Z.mod_small (dword / 2 ^ 16)).
    + pose proof (Z.div_mod dword (2 ^ 16) ltac:(lia)). lia.
    + split; [apply Z.div_pos; lia|].
      apply Z.div_lt_upper_bound; [lia|].
      change (2 ^ 16 * 2 ^ 16) with (2 ^ 32). exact Hhi.
Qed.

Lemma read_fifo_words_witness :
  exists lsb msb,
    read_fifo [305419896] !! (2 * 0)%nat = Some lsb /\
    read_fifo [305419896] !! (2 * 0 + 1)%nat = Some msb /\
    (fits 32 305419896 -> lsb + 2 ^ 16 * msb = 305419896).
Proof.
  exact (proj2 (proj2 (read_fifo_words [305419896])) 0%nat _ eq_refl).
Defined.

Lemma word_decodes (word : Z) :
  decodable word ->
  (to_bytes_2_big word ≫= decode_utf_8) = inr (word_chars word).
Proof.
  intros [Hr Hb]. unfold to_bytes_2_big, word_chars.
  rewrite decide_True by exact Hr. cbn [mbind error_bind].
  unfold decode_utf_8. cbn [fst snd].
  destruct (decide (Z.shiftr word 8 < 128 /\ Z.land word 255 < 128))
    as [Ha|Ha]; [reflexivity|].
  rewrite decide_True; [reflexivity|]. destruct Hb as [Hb|Hb]; tauto.
Qed.

Lemma word_fails (word : Z) :
  ~ decodable word ->
  exists e, (to_bytes_2_big word ≫= decode_utf_8) = inl e /\
            e <> IndexError.
Proof.
  intros Hn. unfold to_bytes_2_big.
  destruct (decide (0 <= word < 65536)) as [Hr|Hr];
    [|by exists OverflowError].
  cbn [mbind error_bind]. unfold decode_utf_8. cbn [fst snd].
  destruct (decide (Z.shiftr word 8 < 128 /\ Z.land word 255 < 128))
    as [Ha|Ha]; [exfalso; apply Hn; split; tauto|].
  destruct (decide (194 <= Z.shiftr word 8 <= 223 /\
                    128 <= Z.land word 255 <= 191)) as [Hb|Hb];
    [exfalso; apply Hn; split; tauto|].
  by exists UnicodeDecodeError.
Qed.

Lemma decode_string_unfold (str : list Z) (word : Z) (words : list Z) :
  decode_string str (word :: words)
  = (to_bytes_2_big word ≫= decode_utf_8)
      ≫= fun s => decode_string (str ++ s)%list words.
Proof.
  cbn [decode_string]. by destruct (to_bytes_2_big word).
Qed.

Lemma decode_string_ok (str : list Z) (words : list Z) :
  Forall decodable words ->
  decode_string str words = inr (str ++ flat_map word_chars words)%list.
Proof.
  intros H. revert str. induction H as [|w words Hw _ IH]; intros str.
  - cbn. by rewrite app_nil_r.
  - rewrite decode_string_unfold, (word_decodes w Hw).
    cbn [mbind error_bind flat_map]. by rewrite IH, <- app_assoc.
Qed.

Lemma decode_string_fail (str : list Z) (words : list Z) :
  ~ Forall decodable words ->
  exists e, decode_string str words = inl e /\ e <> IndexError.
Proof.
  revert str. induction words as [|w words IH]; intros str Hn.
  - exfalso. apply Hn. constructor.
  - rewrite decode_string_unfold.
    destruct (decide (decodable w)) as [Hw|Hw].
    + rewrite (word_decodes w Hw). cbn [mbind error_bind].
      apply IH. intros Hws. apply Hn. by constructor.
    + destruct (word_fails w Hw) as (e & -> & He). by exists e.
Qed.

Lemma getitem_inr (data : list Z) (i : nat) :
  (i < length data)%nat ->
  exists v, data !! i = Some v /\ getitem data i = inr v.
Proof.
  intros Hi. destruct (lookup_lt_is_Some_2 data i Hi) as [v Hv].
  exists v. unfold getitem. by rewrite Hv.
Qed.

Lemma getitem_inl (data : list Z) (i : nat) :
  (length data <= i)%nat -> getitem data i = inl IndexError.
Proof.
  intros Hi. unfold getitem. by rewrite lookup_ge_None_2.
Qed.

Lemma decode_strings_fail (data : list Z) :
  ~ strings_decodable data ->
  exists e, decode data = inl e /\ e <> IndexError.
Proof.
  intros Hn. unfold decode.
  destruct (decide (Forall decodable (getslice data 10 20))) as [H1|H1];
    [rewrite (decode_string_ok [] _ H1)
    |destruct (decode_string_fail [] _ H1) as (e & -> & He); by exists e].
  destruct (decide (Forall decodable (getslice data 23 27))) as [H2|H2];
    [rewrite (decode_string_ok [] _ H2)
    |destruct (decode_string_fail [] _ H2) as (e & -> & He); by exists e].
  destruct (decide (Forall decodable (getslice data 27 46))) as [H3|H3];
    [|destruct (decode_string_fail [] _ H3) as (e & -> & He); by exists e].
  exfalso. apply Hn. by repeat split.
Qed.

Lemma decode_short (data : list Z) :
  strings_decodable data -> (length data < 104)%nat ->
  decode data = inl IndexError.
Proof.
  intros (H1 & H2 & H3) Hlen. unfold decode.
  rewrite (decode_string_ok [] _ H1), (decode_string_ok [] _ H2),
          (decode_string_ok [] _ H3).
  cbn [mbind error_bind]. unfold getitem.
  destruct (data !! 100%nat) eqn:E0; [|reflexivity].
  destruct (data !! 101%nat) eqn:E1; [|reflexivity].
  destruct (data !! 102%nat) eqn:E2; [|reflexivity].
  rewrite (lookup_ge_None_2 data 103) by lia. reflexivity.
Qed.

Lemma decode_long (data : list Z) :
  strings_decodable data -> (104 <= length data)%nat ->
  exists d100 d101 d102 d103 d76 d83,
    data !! 100%nat = Some d100 /\ data !! 101%nat = Some d101 /\
    data !! 102%nat = Some d102 /\ data !! 103%nat = Some d103 /\
    data !! 76%nat = Some d76 /\ data !! 83%nat = Some d83 /\
    decode data
    = inr (mkIdentify
             (flat_map word_chars (getslice data 10 20))
             (flat_map word_chars (getslice data 23 27))
             (flat_map word_chars (getslice data 27 46))
             (d100 + Z.shiftl d101 16 + Z.shiftl d102 32 + Z.shiftl d103 48)
             [ ("SATA Gen1", Z.land (Z.shiftr d76 1) 1);
               ("SATA Gen2", Z.land (Z.shiftr d76 2) 1);
               ("SATA Gen3", Z.land (Z.shiftr d76 3) 1);
               ("48 bits LBA supported", Z.land (Z.shiftr d83 10) 1) ]).
Proof.
  intros (H1 & H2 & H3) Hlen. unfold decode.
  rewrite (decode_string_ok [] _ H1), (decode_string_ok [] _ H2),
          (decode_string_ok [] _ H3).
  destruct (getitem_inr data 100 ltac:(lia)) as (d100 & E100 & ->).
  destruct (getitem_inr data 101 ltac:(lia)) as (d101 & E101 & ->).
  destruct (getitem_inr data 102 ltac:(lia)) as (d102 & E102 & ->).
  destruct (getitem_inr data 103 ltac:(lia)) as (d103 & E103 & ->).
  destruct (getitem_inr data 76 ltac:(lia)) as (d76 & E76 & ->).
  destruct (getitem_inr data 83 ltac:(lia)) as (d83 & E83 & ->).
  exists d100, d101, d102, d103, d76, d83.
  by repeat (split; [assumption|]).
Qed.

(** X14. [decode] returns exactly when the words of the three strings are
    decodable and the data has at least 104 words; it raises [IndexError]
    exactly when the strings are decodable and the data is shorter (as
    when the device returned nothing), and another error otherwise. *)
Theorem decode_outcome (data : list Z) :
  ((exists info, decode data = inr info) <->
   strings_decodable data /\ (104 <= length data)%nat) /\
  (decode data = inl IndexError <->
   strings_decodable data /\ (length data < 104)%nat).
Proof.
  destruct (decide (strings_decodable data)) as [Hs|Hs].
  - destruct (le_lt_dec 104 (length data)) as [Hlen|Hlen].
    + destruct (decode_long data Hs Hlen)
        as (? & ? & ? & ? & ? & ? & _ & _ & _ & _ & _ & _ & ->).
      split; split; try (intros [_ ?]; lia); eauto; discriminate.
    + rewrite (decode_short data Hs Hlen).
      split; split; try (intros [_ ?]; lia); eauto.
      intros [? ?]; discriminate.
  - destruct (decode_strings_fail data Hs) as (e & -> & He).
    split; split; try (intros [? _]; contradiction).
    + intros [? ?]; discriminate.
    + congruence.
Qed.

Lemma decode_inr_long (data : list Z) (info : identify) :
  decode data = inr info ->
  strings_decodable data /\ (104 <= length data)%nat.
Proof.
  intros Hd.
  destruct (decide (strings_decodable data)) as [Hs|Hs].
  - split; [exact Hs|].
    destruct (le_lt_dec 104 (length data)) as [Hlen|Hlen]; [exact Hlen|].
    rewrite (decode_short data Hs Hlen) in Hd. discriminate.
  - destruct (decode_strings_fail data Hs) as (e & He & _).
    rewrite He in Hd. discriminate.
Qed.

Lemma halves_recombine (dword : Z) :
  fits 32 dword ->
  Z.land dword 65535 + Z.shiftl (Z.land (Z.shiftr dword 16) 65535) 16
  = dword.
Proof.
  intros [Hlo Hhi]. change 65535 with (Z.ones 16).
  rewrite !Z.land_ones, Z.shiftr_div_pow2, Z.shiftl_mul_pow2 by lia.
  rewrite (Z.mod_small (dword / 2 ^ 16)).
  - pose proof (Z.div_mod dword (2 ^ 16) ltac:(lia)). lia.
  - split; [apply Z.div_pos; lia|].
    apply Z.div_lt_upper_bound; [lia|].
    change (2 ^ 16 * 2 ^ 16) with (2 ^ 32). exact Hhi.
Qed.

(** X15. Round trip of the sector count through the FIFO: when dwords 50
    and 51 read from the device are the low and the high 32 bits of a
    sector count, [decode] after [read_fifo] returns that count as
    [total_sectors], a value below [2^64]. *)
Theorem total_sectors_round_trip (dwords : list Z) (lo hi : Z)
    (info : identify) :
  dwords !! 50%nat = Some lo -> dwords !! 51%nat = Some hi ->
  fits 32 lo -> fits 32 hi ->
  decode (read_fifo dwords) = inr info ->
  total_sectors info = lo + 2 ^ 32 * hi /\ fits 64 (total_sectors info).
Proof.
  intros Hlo Hhi Flo Fhi Hd.
  destruct (decode_inr_long _ _ Hd) as [Hs Hlen].
  destruct (decode_long _ Hs Hlen)
    as (d100 & d101 & d102 & d103 & d76 & d83
        & E100 & E101 & E102 & E103 & _ & _ & Hinfo).
  rewrite Hinfo in Hd. injection Hd as <-. cbn [total_sectors].
  rewrite read_fifo_flat_map in E100, E101, E102, E103.
  destruct (flat_map_halves_lookup dwords 50 lo Hlo) as [L0 L1].
  destruct (flat_map_halves_lookup dwords 51 hi Hhi) as [H0 H1].
  change (2 * 50)%nat with 100%nat in L0.
  change (2 * 50 + 1)%nat with 101%nat in L1.
  change (2 * 51)%nat with 102%nat in H0.
  change (2 * 51 + 1)%nat with 103%nat in H1.
  rewrite L0 in E100. rewrite L1 in E101.
  rewrite H0 in E102. rewrite H1 in E103.
  injection E100 as <-. injection E101 as <-.
  injection E102 as <-. injection E103 as <-.
  assert (Hval :
    Z.land lo 65535 + Z.shiftl (Z.land (Z.shiftr lo 16) 65535) 16
    + Z.shiftl (Z.land hi 65535) 32
    + Z.shiftl (Z.land (Z.shiftr hi 16) 65535) 48
    = lo + 2 ^ 32 * hi).
  { rewrite (halves_recombine lo Flo).
    rewrite <- (halves_recombine hi Fhi) at 3.
    rewrite !Z.shiftl_mul_pow2 by lia. lia. }
  rewrite Hval. split; [reflexivity|].
  destruct Flo as [? ?], Fhi as [? ?]. unfold fits.
  change (2 ^ 64) with (2 ^ 32 * 2 ^ 32). nia.
Qed.

Lemma total_sectors_round_trip_witness :
  exists info,
    decode (read_fifo (blank_answer 1000 2)) = inr info /\
    total_sectors info = 1000 + 2 ^ 32 * 2 /\ fits 64 (total_sectors info).
Proof.
  destruct (decode (read_fifo (blank_answer 1000 2))) as [e|info] eqn:E;
    [vm_compute in E; discriminate|].
  exists info. split; [reflexivity|].
  apply (total_sectors_round_trip (blank_answer 1000 2) 1000 2 info);
    [reflexivity | reflexivity | | | exact E];
    vm_compute; split; congruence.
Defined.

Lemma land_shiftr_1 (v : Z) (k : Z) :
  0 <= k -> Z.land (Z.shiftr v k) 1 = Z.b2z (Z.testbit v k).
Proof.
  intros Hk. change 1 with (Z.ones 1) at 1.
  rewrite Z.land_ones by lia. change (2 ^ 1) with 2.
  rewrite <- Z.bit0_mod, Z.shiftr_spec by lia. reflexivity.
Qed.

(** X16. The capabilities [decode] reports are single bits of the
    identify data, in this order: bits 1, 2 and 3 of word 76 for SATA
    Gen1, Gen2 and Gen3, and bit 10 of word 83 for 48-bit LBA. *)
Theorem capabilities_are_bits (data : list Z) (info : identify) :
  decode data = inr info ->
  exists d76 d83,
    data !! 76%nat = Some d76 /\ data !! 83%nat = Some d83 /\
    capabilities info
    = [ ("SATA Gen1", Z.b2z (Z.testbit d76 1));
        ("SATA Gen2", Z.b2z (Z.testbit d76 2));
        ("SATA Gen3", Z.b2z (Z.testbit d76 3));
        ("48 bits LBA supported", Z.b2z (Z.testbit d83 10)) ].
Proof.
  intros Hd. destruct (decode_inr_long _ _ Hd) as [Hs Hlen].
  destruct (decode_long _ Hs Hlen)
    as (d100 & d101 & d102 & d103 & d76 & d83
        & _ & _ & _ & _ & E76 & E83 & Hinfo).
  rewrite Hinfo in Hd. injection Hd as <-. cbn [capabilities].
  exists d76, d83. split; [exact E76|]. split; [exact E83|].
  by rewrite !land_shiftr_1 by lia.
Qed.

Lemma capabilities_are_bits_witness :
  exists info d76 d83,
    decode (read_fifo (blank_answer 1000 2)) = inr info /\
    read_fifo (blank_answer 1000 2) !! 76%nat = Some d76 /\
    read_fifo (blank_answer 1000 2) !! 83%nat = Some d83 /\
    capabilities info
    = [ ("SATA Gen1", Z.b2z (Z.testbit d76 1));
        ("SATA Gen2", Z.b2z (Z.testbit d76 2));
        ("SATA Gen3", Z.b2z (Z.testbit d76 3));
        ("48 bits LBA supported", Z.b2z (Z.testbit d83 10)) ].
Proof.
  destruct (decode (read_fifo (blank_answer 1000 2))) as [e|info] eqn:E;
    [vm_compute in E; discriminate|].
  exists info.
  destruct (capabilities_are_bits _ info E) as (d76 & d83 & H).
  by exists d76, d83.
Defined.

Lemma ascii_decodable (word : Z) : ascii_word word -> decodable word.
Proof. intros (Hr & Hhi & Hlo). split; [exact Hr|]. by left. Qed.

Lemma word_chars_ascii (word : Z) :
  ascii_word word -> word_chars word = chars word.
Proof.
  intros (_ & Hhi & Hlo). unfold word_chars. by rewrite decide_True.
Qed.

Lemma flat_map_chars (words : list Z) :
  Forall ascii_word words ->
  flat_map word_chars words = flat_map chars words /\
  length (flat_map chars words) = (2 * length words)%nat.
Proof.
  induction 1 as [|w words Hw _ [IH1 IH2]]; [by split|].
  cbn [flat_map]. rewrite (word_chars_ascii w Hw), IH1. split; [reflexivity|].
  rewrite length_app, IH2. cbn [chars length]. lia.
Qed.

Lemma getslice_length (data : list Z) (lo hi : nat) :
  (hi <= length data)%nat ->
  length (getslice data lo hi) = (hi - lo)%nat.
Proof.
  intros H. unfold getslice. rewrite length_take, length_drop. lia.
Qed.

(** X17. When the words of the strings are ASCII, [decode] spells each
    word high byte first, and the serial number, the firmware revision and
    the model number have 20, 8 and 38 characters. *)
Theorem identify_strings_ascii (data : list Z) (info : identify) :
  strings_ascii data ->
  decode data = inr info ->
  serial_number info = flat_map chars (getslice data 10 20) /\
  firmware_revision info = flat_map chars (getslice data 23 27) /\
  model_number info = flat_map chars (getslice data 27 46) /\
  length (serial_number info) = 20%nat /\
  length (firmware_revision info) = 8%nat /\
  length (model_number info) = 38%nat.
Proof.
  intros (A1 & A2 & A3) Hd. destruct (decode_inr_long _ _ Hd) as [Hs Hlen].
  destruct (decode_long _ Hs Hlen)
    as (d100 & d101 & d102 & d103 & d76 & d83
        & _ & _ & _ & _ & _ & _ & Hinfo).
  rewrite Hinfo in Hd. injection Hd as <-.
  cbn [serial_number firmware_revision model_number].
  destruct (flat_map_chars _ A1) as [-> L1].
  destruct (flat_map_chars _ A2) as [-> L2].
  destruct (flat_map_chars _ A3) as [-> L3].
  rewrite L1, L2, L3, !getslice_length by lia. by repeat split.
Qed.

Lemma identify_strings_ascii_witness :
  exists info,
    decode (read_fifo (blank_answer 1000 2)) = inr info /\
    length (serial_number info) = 20%nat /\
    length (model_number info) = 38%nat.
Proof.
  destruct (decode (read_fifo (blank_answer 1000 2))) as [e|info] eqn:E;
    [vm_compute in E; discriminate|].
  exists info. split; [reflexivity|].
  assert (Ha : strings_ascii (read_fifo (blank_answer 1000 2))).
  { unfold strings_ascii. repeat apply conj;
      repeat (constructor; [vm_compute; repeat split; congruence|]);
      constructor. }
  destruct (identify_strings_ascii _ info Ha E) as (_ & _ & _ & H1 & _ & H3).
  by split.
Defined.

(** * The loop of the BIST script *)








